(** * submit_application.py: a signed job-application submission

    A shallow embedding of [src/submit_application.py] and of the library
    functions it calls (UTF-8 codec, [json.dumps] / [json.loads],
    [hmac.new(..., hashlib.sha256).hexdigest()]), followed by the
    properties of the script.

    Conventions.
    - A Python [str] is the list of its code points, a [bytes] object the
      list of its byte values; both are lists of [Z].
    - The script is one sequence of statements with three kinds of effect:
      it reads its surroundings (environment, clock, network), it prints,
      and it raises ([sys.exit] raises [SystemExit]).  The surroundings
      are a [world]; prints and reads are logged as [event]s; raising is
      the [Raise] result of the monad [M].
    - The streams take text: a [print] is logged with the objects it was
      given.  How the terminal encodes that text is not the script's
      business.
    - The limits of the interpreter (the recursion depth of the JSON
      decoder, the bound on the digits of an [int], memory) are outside
      the model. *)

From Stdlib Require Import ZArith List Lia Bool String Ascii.
From stdpp Require Import base option list sorting gmap.

Local Open Scope Z_scope.

(** ** Python strings and bytes *)

Definition str := list Z.
Definition bytes := list Z.

(** A string literal of the source (the literals are all ASCII). *)
Fixpoint lit (s : string) : str :=
  match s with
  | EmptyString => []
  | String a s' => Z.of_N (N_of_ascii a) :: lit s'
  end.
Arguments lit : simpl never.

(** [ord(c)] for an ASCII character. *)
Definition ord (c : ascii) : Z := Z.of_N (N_of_ascii c).

(** The double quote, which the literals above cannot hold. *)
Definition dquote : Z := 34.
Definition backslash : Z := ord "\".

(** [sep.join(parts)] *)
Fixpoint join (sep : str) (parts : list str) : str :=
  match parts with
  | [] => []
  | [p] => p
  | p :: rest => p ++ sep ++ join sep rest
  end.

(** [s.startswith(prefix)], and what follows the prefix. *)
Fixpoint strip_prefix (prefix s : str) : option str :=
  match prefix, s with
  | [], _ => Some s
  | p :: prefix', c :: s' => if p =? c then strip_prefix prefix' s' else None
  | _ :: _, [] => None
  end.

(** [s.replace(old, new)] for a non-empty [old]: the occurrences are
    replaced from left to right, without overlap. *)
Fixpoint replace_fuel (fuel : nat) (old new s : str) : str :=
  match fuel with
  | O => s
  | S fuel' =>
      match s with
      | [] => []
      | c :: s' =>
          match strip_prefix old s with
          | Some rest => new ++ replace_fuel fuel' old new rest
          | None => c :: replace_fuel fuel' old new s'
          end
      end
  end.

Definition replace (old new s : str) : str :=
  replace_fuel (S (length s)) old new s.

(** Comparison of two [str]: code point by code point, a proper prefix
    first ([a <= b] in Python). *)
Fixpoint str_leb (a b : str) : bool :=
  match a, b with
  | [], _ => true
  | _ :: _, [] => false
  | x :: a', y :: b' => (x <? y) || ((x =? y) && str_leb a' b')
  end.

(** Decimal rendering of a natural number, most significant digit first,
    padded with zeros to [width] digits ([format(n, "0{width}d")]). *)
Fixpoint digits_fuel (fuel : nat) (n : Z) (acc : str) : str :=
  match fuel with
  | O => acc
  | S fuel' =>
      let acc' := (ord "0" + n mod 10) :: acc in
      if n / 10 =? 0 then acc' else digits_fuel fuel' (n / 10) acc'
  end.

Definition digits (n : Z) : str := digits_fuel (S (Z.to_nat (Z.log2 n))) n [].

Definition zfill (width : nat) (s : str) : str :=
  replicate (width - length s)%nat (ord "0") ++ s.

(** [str(n)] for an [int]. *)
Definition str_of_int (n : Z) : str :=
  if n <? 0 then ord "-" :: digits (- n) else digits n.

(** Two lowercase hexadecimal digits for a byte ([format(b, "02x")]). *)
Definition hex_digit (n : Z) : Z := nth (Z.to_nat n) (lit "0123456789abcdef") (ord "0").

Definition hex_byte (b : Z) : str :=
  [hex_digit (Z.shiftr b 4); hex_digit (Z.land b 0xF)].

(** ** The UTF-8 codec *)

Module Utf8.

Definition cont (c : Z) (shift : Z) : Z :=
  Z.lor 0x80 (Z.land (Z.shiftr c shift) 0x3F).

(** The bytes of one code point; [None] where [str.encode] raises
    [UnicodeEncodeError]: a surrogate (U+D800..U+DFFF).  A [str] holds
    no code point outside 0..0x10FFFF. *)
Definition encode_char (c : Z) : option bytes :=
  if c <? 0 then None
  else if c <? 0x80 then Some [c]
  else if c <? 0x800 then Some [Z.lor 0xC0 (Z.shiftr c 6); cont c 0]
  else if c <? 0x10000 then
    if (0xD800 <=? c) && (c <=? 0xDFFF) then None
    else Some [Z.lor 0xE0 (Z.shiftr c 12); cont c 6; cont c 0]
  else if c <? 0x110000 then
    Some [Z.lor 0xF0 (Z.shiftr c 18); cont c 12; cont c 6; cont c 0]
  else None.

(** [s.encode("utf-8")] *)
Fixpoint encode (s : str) : option bytes :=
  match s with
  | [] => Some []
  | c :: s' =>
      match encode_char c, encode s' with
      | Some b, Some r => Some (b ++ r)
      | _, _ => None
      end
  end.

Definition in_range (lo hi b : Z) : bool := (lo <=? b) && (b <=? hi).
Definition low6 (b : Z) : Z := Z.land b 0x3F.

(** [b.decode("utf-8")]; [None] where it raises [UnicodeDecodeError]
    (a stray continuation byte, an overlong form, a surrogate, a value
    above U+10FFFF, or a sequence cut short). *)
Fixpoint decode (b : bytes) : option str :=
  match b with
  | [] => Some []
  | b0 :: r0 =>
      if in_range 0 0x7F b0 then cons b0 <$> decode r0
      else if in_range 0xC2 0xDF b0 then
        match r0 with
        | b1 :: r1 =>
            if in_range 0x80 0xBF b1
            then cons (Z.lor (Z.shiftl (Z.land b0 0x1F) 6) (low6 b1)) <$> decode r1
            else None
        | _ => None
        end
      else if in_range 0xE0 0xEF b0 then
        match r0 with
        | b1 :: b2 :: r2 =>
            let lo := if b0 =? 0xE0 then 0xA0 else 0x80 in
            let hi := if b0 =? 0xED then 0x9F else 0xBF in
            if in_range lo hi b1 && in_range 0x80 0xBF b2
            then cons (Z.lor (Z.shiftl (Z.land b0 0x0F) 12)
                         (Z.lor (Z.shiftl (low6 b1) 6) (low6 b2))) <$> decode r2
            else None
        | _ => None
        end
      else if in_range 0xF0 0xF4 b0 then
        match r0 with
        | b1 :: b2 :: b3 :: r3 =>
            let lo := if b0 =? 0xF0 then 0x90 else 0x80 in
            let hi := if b0 =? 0xF4 then 0x8F else 0xBF in
            if in_range lo hi b1 && in_range 0x80 0xBF b2 && in_range 0x80 0xBF b3
            then cons (Z.lor (Z.shiftl (Z.land b0 0x07) 18)
                         (Z.lor (Z.shiftl (low6 b1) 12)
                            (Z.lor (Z.shiftl (low6 b2) 6) (low6 b3)))) <$> decode r3
            else None
        | _ => None
        end
      else None
  end.

End Utf8.

(** ** SHA-256 (FIPS 180-4) and HMAC (RFC 2104), as [hashlib] and [hmac]
    compute them *)

Module Sha256.

Definition mask32 (x : Z) : Z := Z.land x 0xFFFFFFFF.
Definition add32 (x y : Z) : Z := mask32 (x + y).
Definition rotr (n x : Z) : Z :=
  Z.lor (Z.shiftr x n) (mask32 (Z.shiftl x (32 - n))).
Definition not32 (x : Z) : Z := Z.lxor x 0xFFFFFFFF.

Definition Ch (x y z : Z) : Z := Z.lxor (Z.land x y) (Z.land (not32 x) z).
Definition Maj (x y z : Z) : Z :=
  Z.lxor (Z.lxor (Z.land x y) (Z.land x z)) (Z.land y z).
Definition Sigma0 (x : Z) : Z := Z.lxor (Z.lxor (rotr 2 x) (rotr 13 x)) (rotr 22 x).
Definition Sigma1 (x : Z) : Z := Z.lxor (Z.lxor (rotr 6 x) (rotr 11 x)) (rotr 25 x).
Definition sigma0 (x : Z) : Z := Z.lxor (Z.lxor (rotr 7 x) (rotr 18 x)) (Z.shiftr x 3).
Definition sigma1 (x : Z) : Z := Z.lxor (Z.lxor (rotr 17 x) (rotr 19 x)) (Z.shiftr x 10).

(** The round constants: the fractional parts of the cube roots of the
    first 64 primes. *)
Definition K : list Z :=
  [0x428A2F98; 0x71374491; 0xB5C0FBCF; 0xE9B5DBA5;
   0x3956C25B; 0x59F111F1; 0x923F82A4; 0xAB1C5ED5;
   0xD807AA98; 0x12835B01; 0x243185BE; 0x550C7DC3;
   0x72BE5D74; 0x80DEB1FE; 0x9BDC06A7; 0xC19BF174;
   0xE49B69C1; 0xEFBE4786; 0x0FC19DC6; 0x240CA1CC;
   0x2DE92C6F; 0x4A7484AA; 0x5CB0A9DC; 0x76F988DA;
   0x983E5152; 0xA831C66D; 0xB00327C8; 0xBF597FC7;
   0xC6E00BF3; 0xD5A79147; 0x06CA6351; 0x14292967;
   0x27B70A85; 0x2E1B2138; 0x4D2C6DFC; 0x53380D13;
   0x650A7354; 0x766A0ABB; 0x81C2C92E; 0x92722C85;
   0xA2BFE8A1; 0xA81A664B; 0xC24B8B70; 0xC76C51A3;
   0xD192E819; 0xD6990624; 0xF40E3585; 0x106AA070;
   0x19A4C116; 0x1E376C08; 0x2748774C; 0x34B0BCB5;
   0x391C0CB3; 0x4ED8AA4A; 0x5B9CCA4F; 0x682E6FF3;
   0x748F82EE; 0x78A5636F; 0x84C87814; 0x8CC70208;
   0x90BEFFFA; 0xA4506CEB; 0xBEF9A3F7; 0xC67178F2].

(** The eight working words. *)
Record regs := Regs {
  ra : Z; rb : Z; rc : Z; rd : Z; re : Z; rf : Z; rg : Z; rh : Z
}.

Definition initial : regs :=
  Regs 0x6A09E667 0xBB67AE85 0x3C6EF372 0xA54FF53A
       0x510E527F 0x9B05688C 0x1F83D9AB 0x5BE0CD19.

(** Big-endian words of a byte string, four bytes at a time. *)
Fixpoint words (b : bytes) : list Z :=
  match b with
  | b0 :: b1 :: b2 :: b3 :: r =>
      Z.lor (Z.shiftl b0 24) (Z.lor (Z.shiftl b1 16) (Z.lor (Z.shiftl b2 8) b3))
      :: words r
  | _ => []
  end.

Definition word_bytes (w : Z) : bytes :=
  [Z.land (Z.shiftr w 24) 0xFF; Z.land (Z.shiftr w 16) 0xFF;
   Z.land (Z.shiftr w 8) 0xFF; Z.land w 0xFF].

(** The message schedule [W_0 .. W_(n-1)], from a window of the last
    sixteen words. *)
Fixpoint schedule (n : nat) (window : list Z) : list Z :=
  match n with
  | O => []
  | S n' =>
      match window with
      | [] => []
      | w0 :: rest =>
          let next :=
            add32 (add32 (add32 (sigma1 (nth 14 window 0)) (nth 9 window 0))
                     (sigma0 (nth 1 window 0))) w0 in
          w0 :: schedule n' (rest ++ [next])
      end
  end.

Definition round (r : regs) (kw : Z * Z) : regs :=
  let t1 := add32 (add32 (add32 (add32 (rh r) (Sigma1 (re r)))
                            (Ch (re r) (rf r) (rg r))) kw.1) kw.2 in
  let t2 := add32 (Sigma0 (ra r)) (Maj (ra r) (rb r) (rc r)) in
  Regs (add32 t1 t2) (ra r) (rb r) (rc r) (add32 (rd r) t1) (re r) (rf r) (rg r).

(** One 64-byte block folded into the hash value. *)
Definition compress (h : regs) (block : bytes) : regs :=
  let r := fold_left round (zip K (schedule 64 (words block))) h in
  Regs (add32 (ra h) (ra r)) (add32 (rb h) (rb r)) (add32 (rc h) (rc r))
       (add32 (rd h) (rd r)) (add32 (re h) (re r)) (add32 (rf h) (rf r))
       (add32 (rg h) (rg r)) (add32 (rh h) (rh r)).

(** Feeding bytes one at a time, as [update] does: a block is
    compressed as soon as 64 bytes are buffered ([buf] is the buffer,
    newest byte first). *)
Fixpoint absorb (h : regs) (buf : bytes) (n : nat) (msg : bytes) : regs :=
  match msg with
  | [] => h
  | b :: msg' =>
      if (n =? 63)%nat then absorb (compress h (rev (b :: buf))) [] 0 msg'
      else absorb h (b :: buf) (S n) msg'
  end.

Definition be64 (n : Z) : bytes :=
  word_bytes (Z.shiftr n 32) ++ word_bytes n.

(** Padding: a 1 bit, zeros up to 56 mod 64, the bit length on 8 bytes. *)
Definition pad (msg : bytes) : bytes :=
  let len := Z.of_nat (length msg) in
  msg ++ [0x80] ++ replicate (Z.to_nat ((55 - len) mod 64)) 0 ++ be64 (8 * len).

Definition output (h : regs) : bytes :=
  word_bytes (ra h) ++ word_bytes (rb h) ++ word_bytes (rc h) ++ word_bytes (rd h)
  ++ word_bytes (re h) ++ word_bytes (rf h) ++ word_bytes (rg h) ++ word_bytes (rh h).

(** [hashlib.sha256(msg).digest()] *)
Definition digest (msg : bytes) : bytes :=
  output (absorb initial [] 0 (pad msg)).

End Sha256.

Module Hmac.

Definition block_size : nat := 64.

(** A key longer than a block is hashed first; the key is then padded
    with zeros to the block size. *)
Definition block_key (key : bytes) : bytes :=
  let k := if (block_size <? length key)%nat then Sha256.digest key else key in
  k ++ replicate (block_size - length k)%nat 0.

Definition xor_with (c : Z) (k : bytes) : bytes := map (Z.lxor c) k.

(** [hmac.new(key, msg, hashlib.sha256).digest()] *)
Definition digest (key msg : bytes) : bytes :=
  let k := block_key key in
  Sha256.digest (xor_with 0x5C k ++ Sha256.digest (xor_with 0x36 k ++ msg)).

(** [.hexdigest()]: two lowercase hexadecimal digits per byte. *)
Definition hexdigest (key msg : bytes) : str :=
  concat (map hex_byte (digest key msg)).

End Hmac.

(** ** JSON *)

(** A [dict] keeps its items in insertion order; its keys are distinct. *)
Definition dict (V : Type) := list (str * V).

Fixpoint dict_get {V} (k : str) (d : dict V) : option V :=
  match d with
  | [] => None
  | (k', v) :: d' => if decide (k = k') then Some v else dict_get k d'
  end.

(** [d[k] = v]: an existing key keeps its place and takes the new value,
    a new key goes last. *)
Fixpoint dict_set {V} (k : str) (v : V) (d : dict V) : dict V :=
  match d with
  | [] => [(k, v)]
  | (k', v') :: d' =>
      if decide (k = k') then (k, v) :: d' else (k', v') :: dict_set k v d'
  end.

(** [k in d] *)
Definition dict_has {V} (k : str) (d : dict V) : bool :=
  bool_decide (is_Some (dict_get k d)).

Module Json.

(** A JSON number with a fraction or an exponent becomes a [float]: the
    double nearest to [mant * 10 ^ exp10], negated when [neg].
    [json.loads] also reads [NaN], [Infinity] and [-Infinity]. *)
Inductive float_lit :=
| FNum (neg : bool) (mant exp10 : Z)
| FInf (neg : bool)
| FNaN.

(** What [json.loads] returns: [None], [True] / [False], an [int], a
    [float], a [str], a [list] or a [dict] with [str] keys. *)
#[warnings="-register-all"]
Inductive value :=
| VNull
| VBool (b : bool)
| VInt (n : Z)
| VFloat (f : float_lit)
| VStr (s : str)
| VList (l : list value)
| VDict (d : list (str * value)).

(** *** Serialization, [json.dumps] *)

(** [ensure_ascii=False]: only the quote, the backslash and the control
    characters below U+0020 are escaped. *)
Definition escape_char (c : Z) : str :=
  if c =? dquote then [backslash; dquote]
  else if c =? backslash then [backslash; backslash]
  else if c =? 8 then lit "\b"
  else if c =? 12 then lit "\f"
  else if c =? 10 then lit "\n"
  else if c =? 13 then lit "\r"
  else if c =? 9 then lit "\t"
  else if (0 <=? c) && (c <? 0x20) then lit "\u00" ++ hex_byte c
  else [c].

Definition encode_string (s : str) : str :=
  [dquote] ++ concat (map escape_char s) ++ [dquote].

(** [sorted(d.items())]: the keys of a dict are distinct, so the items
    are ordered by key alone. *)
Fixpoint insert_item {V} (x : str * V) (l : list (str * V)) : list (str * V) :=
  match l with
  | [] => [x]
  | y :: l' => if str_leb x.1 y.1 then x :: y :: l' else y :: insert_item x l'
  end.

Definition sorted_items {V} (d : dict V) : list (str * V) :=
  foldr insert_item [] d.

Definition encode_item (kv : str * str) : str :=
  encode_string kv.1 ++ lit ":" ++ encode_string kv.2.

(** [json.dumps(d, separators=(",", ":"), sort_keys=True,
    ensure_ascii=False)] for a dict of strings. *)
Definition dumps (d : dict str) : str :=
  lit "{" ++ join (lit ",") (map encode_item (sorted_items d)) ++ lit "}".

(** *** Parsing, [json.loads]

    The text is cut into tokens by an automaton that reads one
    character at a time; the tokens drive a stack of the containers
    under construction.  Both are total, and accept the language of
    [json.JSONDecoder] (strict mode, the default). *)

Inductive token :=
| TLBrace | TRBrace | TLBracket | TRBracket | TComma | TColon
| TScalar (v : value).

Inductive num_state :=
| NMinus | NZero | NInt | NDot | NFrac | NExp | NExpSign | NExpDigits.

Inductive lex_state :=
| LIdle
| LString (acc : str) (hi : bool)
| LEscape (acc : str) (hi : bool)
| LUnicode (acc : str) (hi : bool) (k : nat) (code : Z)
| LNumber (st : num_state) (neg : bool) (mant scale : Z) (eneg : bool) (e : Z)
| LWord (rest : str) (v : value).

Definition is_space (c : Z) : bool :=
  (c =? ord " ") || (c =? 9) || (c =? 10) || (c =? 13).
Definition is_digit (c : Z) : bool := (ord "0" <=? c) && (c <=? ord "9").
Definition hex_value (c : Z) : option Z :=
  if is_digit c then Some (c - ord "0")
  else if (ord "a" <=? c) && (c <=? ord "f") then Some (c - ord "a" + 10)
  else if (ord "A" <=? c) && (c <=? ord "F") then Some (c - ord "A" + 10)
  else None.
Definition is_high (c : Z) : bool := (0xD800 <=? c) && (c <=? 0xDBFF).
Definition is_low (c : Z) : bool := (0xDC00 <=? c) && (c <=? 0xDFFF).

(** The number read so far, where the text of a number may end. *)
Definition number_value (st : num_state) (neg : bool) (mant scale : Z)
    (eneg : bool) (e : Z) : option value :=
  match st with
  | NZero | NInt => Some (VInt (if neg then - mant else mant))
  | NFrac | NExpDigits =>
      Some (VFloat (FNum neg mant ((if eneg then - e else e) - scale)))
  | NMinus | NDot | NExp | NExpSign => None
  end.

Definition lex_idle (c : Z) : option (lex_state * list token) :=
  if is_space c then Some (LIdle, [])
  else if c =? ord "{" then Some (LIdle, [TLBrace])
  else if c =? ord "}" then Some (LIdle, [TRBrace])
  else if c =? ord "[" then Some (LIdle, [TLBracket])
  else if c =? ord "]" then Some (LIdle, [TRBracket])
  else if c =? ord "," then Some (LIdle, [TComma])
  else if c =? ord ":" then Some (LIdle, [TColon])
  else if c =? dquote then Some (LString [] false, [])
  else if c =? ord "-" then Some (LNumber NMinus true 0 0 false 0, [])
  else if c =? ord "0" then Some (LNumber NZero false 0 0 false 0, [])
  else if is_digit c then Some (LNumber NInt false (c - ord "0") 0 false 0, [])
  else if c =? ord "t" then Some (LWord (lit "rue") (VBool true), [])
  else if c =? ord "f" then Some (LWord (lit "alse") (VBool false), [])
  else if c =? ord "n" then Some (LWord (lit "ull") VNull, [])
  else if c =? ord "N" then Some (LWord (lit "aN") (VFloat FNaN), [])
  else if c =? ord "I" then Some (LWord (lit "nfinity") (VFloat (FInf false)), [])
  else None.

Definition is_exp_mark (c : Z) : bool := (c =? ord "e") || (c =? ord "E").

(** A character that does not continue the number ends it, and is then
    read as the start of the next token. *)
Definition lex_number_end (st : num_state) (neg : bool) (mant scale : Z)
    (eneg : bool) (e : Z) (c : Z) : option (lex_state * list token) :=
  v ← number_value st neg mant scale eneg e;
  '(s, toks) ← lex_idle c;
  Some (s, TScalar v :: toks).

Definition lex_number (st : num_state) (neg : bool) (mant scale : Z)
    (eneg : bool) (e : Z) (c : Z) : option (lex_state * list token) :=
  let d := c - ord "0" in
  match st with
  | NMinus =>
      if c =? ord "0" then Some (LNumber NZero neg 0 0 false 0, [])
      else if is_digit c then Some (LNumber NInt neg d 0 false 0, [])
      else if c =? ord "I" then Some (LWord (lit "nfinity") (VFloat (FInf true)), [])
      else None
  | NZero =>
      if c =? ord "." then Some (LNumber NDot neg mant scale eneg e, [])
      else if is_exp_mark c then Some (LNumber NExp neg mant scale eneg e, [])
      else lex_number_end st neg mant scale eneg e c
  | NInt =>
      if is_digit c then Some (LNumber NInt neg (10 * mant + d) scale eneg e, [])
      else if c =? ord "." then Some (LNumber NDot neg mant scale eneg e, [])
      else if is_exp_mark c then Some (LNumber NExp neg mant scale eneg e, [])
      else lex_number_end st neg mant scale eneg e c
  | NDot =>
      if is_digit c then Some (LNumber NFrac neg (10 * mant + d) (scale + 1) eneg e, [])
      else None
  | NFrac =>
      if is_digit c then Some (LNumber NFrac neg (10 * mant + d) (scale + 1) eneg e, [])
      else if is_exp_mark c then Some (LNumber NExp neg mant scale eneg e, [])
      else lex_number_end st neg mant scale eneg e c
  | NExp =>
      if c =? ord "+" then Some (LNumber NExpSign neg mant scale false e, [])
      else if c =? ord "-" then Some (LNumber NExpSign neg mant scale true e, [])
      else if is_digit c then Some (LNumber NExpDigits neg mant scale eneg d, [])
      else None
  | NExpSign =>
      if is_digit c then Some (LNumber NExpDigits neg mant scale eneg d, [])
      else None
  | NExpDigits =>
      if is_digit c then Some (LNumber NExpDigits neg mant scale eneg (10 * e + d), [])
      else lex_number_end st neg mant scale eneg e c
  end.

Definition unescape (c : Z) : option Z :=
  if c =? dquote then Some dquote
  else if c =? backslash then Some backslash
  else if c =? ord "/" then Some (ord "/")
  else if c =? ord "b" then Some 8
  else if c =? ord "f" then Some 12
  else if c =? ord "n" then Some 10
  else if c =? ord "r" then Some 13
  else if c =? ord "t" then Some 9
  else None.

(** The end of a [\uXXXX] escape.  A low surrogate that follows the
    escape of a high surrogate at once joins it into one code point. *)
Definition lex_unicode_end (acc : str) (hi : bool) (code : Z) : lex_state :=
  match acc with
  | h :: acc' =>
      if hi && is_low code
      then LString (0x10000 + Z.lor (Z.shiftl (h - 0xD800) 10) (code - 0xDC00) :: acc') false
      else LString (code :: acc) (is_high code)
  | [] => LString [code] (is_high code)
  end.

Definition lex_step (s : lex_state) (c : Z) : option (lex_state * list token) :=
  match s with
  | LIdle => lex_idle c
  | LString acc hi =>
      if c =? dquote then Some (LIdle, [TScalar (VStr (rev acc))])
      else if c =? backslash then Some (LEscape acc hi, [])
      else if (0 <=? c) && (c <? 0x20) then None
      else Some (LString (c :: acc) false, [])
  | LEscape acc hi =>
      if c =? ord "u" then Some (LUnicode acc hi 4 0, [])
      else u ← unescape c; Some (LString (u :: acc) false, [])
  | LUnicode acc hi k code =>
      d ← hex_value c;
      match k with
      | 1%nat => Some (lex_unicode_end acc hi (16 * code + d), [])
      | S k' => Some (LUnicode acc hi k' (16 * code + d), [])
      | O => None
      end
  | LNumber st neg mant scale eneg e => lex_number st neg mant scale eneg e c
  | LWord rest v =>
      match rest with
      | [x] => if c =? x then Some (LIdle, [TScalar v]) else None
      | x :: rest' => if c =? x then Some (LWord rest' v, []) else None
      | [] => None
      end
  end.

(** At the end of the text only a number may still be open. *)
Definition lex_end (s : lex_state) : option (list token) :=
  match s with
  | LIdle => Some []
  | LNumber st neg mant scale eneg e =>
      v ← number_value st neg mant scale eneg e; Some [TScalar v]
  | _ => None
  end.

Fixpoint lex (s : lex_state) (text : str) : option (list token) :=
  match text with
  | [] => lex_end s
  | c :: text' =>
      '(s', toks) ← lex_step s c;
      rest ← lex s' text';
      Some (toks ++ rest)
  end.

(** The containers under construction, innermost first. *)
Inductive frame :=
| FArr (items : list value)
| FObj (pairs : list (str * value))
| FKey (k : str).

Inductive mode :=
| PValue | PArrFirst | PObjFirst | PObjKey | PColon | PAfter
| PDone (v : value).

(** A finished value goes to the container it belongs to. *)
Definition deliver (v : value) (stack : list frame) : option (mode * list frame) :=
  match stack with
  | [] => Some (PDone v, [])
  | FArr items :: rest => Some (PAfter, FArr (v :: items) :: rest)
  | FKey k :: FObj pairs :: rest => Some (PAfter, FObj (dict_set k v pairs) :: rest)
  | _ => None
  end.

Definition parse_value_start (t : token) (stack : list frame)
    : option (mode * list frame) :=
  match t with
  | TScalar v => deliver v stack
  | TLBracket => Some (PArrFirst, FArr [] :: stack)
  | TLBrace => Some (PObjFirst, FObj [] :: stack)
  | _ => None
  end.

Definition parse_key (t : token) (stack : list frame) : option (mode * list frame) :=
  match t with
  | TScalar (VStr k) => Some (PColon, FKey k :: stack)
  | _ => None
  end.

Definition parse_step (m : mode) (stack : list frame) (t : token)
    : option (mode * list frame) :=
  match m, t, stack with
  | PValue, _, _ => parse_value_start t stack
  | PArrFirst, TRBracket, FArr _ :: rest => deliver (VList []) rest
  | PArrFirst, _, _ => parse_value_start t stack
  | PObjFirst, TRBrace, FObj _ :: rest => deliver (VDict []) rest
  | PObjFirst, _, _ => parse_key t stack
  | PObjKey, _, _ => parse_key t stack
  | PColon, TColon, _ => Some (PValue, stack)
  | PAfter, TComma, FArr _ :: _ => Some (PValue, stack)
  | PAfter, TComma, FObj _ :: _ => Some (PObjKey, stack)
  | PAfter, TRBracket, FArr items :: rest => deliver (VList (rev items)) rest
  | PAfter, TRBrace, FObj pairs :: rest => deliver (VDict pairs) rest
  | _, _, _ => None
  end.

Fixpoint parse (m : mode) (stack : list frame) (toks : list token) : option value :=
  match toks with
  | [] => match m with PDone v => Some v | _ => None end
  | t :: toks' => '(m', stack') ← parse_step m stack t; parse m' stack' toks'
  end.

(** The value of a JSON text: what [json.loads(text)] returns, and [None]
    where it raises [JSONDecodeError], as long as the text stays within
    the limits of the interpreter ([decode], below). *)
Definition loads (text : str) : option value :=
  toks ← lex LIdle text; parse PValue [] toks.

(** *** The limits of the interpreter

    [json.loads] does not only return or raise [JSONDecodeError].  The
    scanner calls itself for every container inside a container, and is
    stopped by the recursion limit with [RecursionError]; it converts
    every integer with [int], which raises [ValueError] on more digits
    than [sys.get_int_max_str_digits()].  How much room there is depends
    on the interpreter and on its settings. *)
Record limits := {
  max_nesting : nat;    (* a container opens inside at most so many open containers *)
  error_nesting : nat;  (* an error of syntax is reported inside at most so many *)
  max_digits : Z        (* sys.get_int_max_str_digits(); 0 for no limit *)
}.

(** How [json.loads] fails: [JSONDecodeError], [RecursionError],
    [ValueError]. *)
Inductive error := Syntax | TooDeep | TooLong.

Definition too_long (lim : limits) (n : Z) : bool :=
  (0 <? max_digits lim) && (10 ^ max_digits lim <=? Z.abs n).

(** The number that the scanner has read when the lexer stops inside a
    number: [12] in [12x], in [12.] and in [12e+]; [1.5] in [1.5e]. *)
Definition read_number (s : lex_state) : list token :=
  match s with
  | LNumber st neg mant scale _ _ =>
      let int := [TScalar (VInt (if neg then - mant else mant))] in
      let float := [TScalar (VFloat (FNum neg mant (- scale)))] in
      match st with
      | NMinus => []
      | NZero | NInt | NDot => int
      | NFrac | NExpDigits => float
      | NExp | NExpSign => if scale =? 0 then int else float
      end
  | _ => []
  end.

(** Where the lexer stopped. *)
Inductive stop :=
| Finished       (* at the end of the text, between two tokens *)
| InString       (* inside a string: it is not closed, or holds what it may not *)
| Elsewhere.

Definition stopped (s : lex_state) : stop :=
  match s with
  | LString _ _ | LEscape _ _ | LUnicode _ _ _ _ => InString
  | _ => Elsewhere
  end.

(** The tokens that are read before the lexer stops. *)
Fixpoint scan (s : lex_state) (text : str) : list token * stop :=
  match text with
  | [] =>
      match lex_end s with
      | Some toks => (toks, Finished)
      | None => (read_number s, stopped s)
      end
  | c :: text' =>
      match lex_step s c with
      | Some (s', toks) => let '(rest, st) := scan s' text' in (toks ++ rest, st)
      | None => (read_number s, stopped s)
      end
  end.

(** The containers that are open. *)
Fixpoint depth (stack : list frame) : nat :=
  match stack with
  | [] => 0
  | FKey _ :: rest => depth rest
  | _ :: rest => S (depth rest)
  end.

(** The token stands where a value may start. *)
Definition starts_value (m : mode) (t : token) : bool :=
  match m, t with
  | PValue, _ => true
  | PArrFirst, TRBracket => false
  | PArrFirst, _ => true
  | _, _ => false
  end.

(** The limit that a token meets: a container that opens too deep, an
    integer that is too long. *)
Definition limit_at (lim : limits) (m : mode) (stack : list frame) (t : token)
    : option error :=
  if starts_value m t then
    match t with
    | TLBracket | TLBrace =>
        if (depth stack <=? max_nesting lim)%nat then None else Some TooDeep
    | TScalar (VInt n) => if too_long lim n then Some TooLong else None
    | _ => None
    end
  else None.

(** An error of syntax.  Where a value is expected and none starts, the
    decoder reports it after the scanner has returned.  Inside a string,
    and where a key, a colon, a comma or a closing bracket is expected,
    the scanner builds the [JSONDecodeError] itself, which takes some
    levels of recursion more: too deep inside the containers this ends
    in [RecursionError]. *)
Definition failure (lim : limits) (m : mode) (stack : list frame) (in_string : bool)
    : error :=
  let built := if (depth stack <=? error_nesting lim)%nat then Syntax else TooDeep in
  match m with
  | PDone _ => Syntax
  | PValue | PArrFirst => if in_string then built else Syntax
  | _ => built
  end.

(** The text is read from left to right: what is met first decides. *)
Fixpoint decode_tokens (lim : limits) (m : mode) (stack : list frame)
    (toks : list token) (st : stop) : error + value :=
  match toks with
  | t :: toks' =>
      match limit_at lim m stack t with
      | Some e => inl e
      | None =>
          match parse_step m stack t with
          | Some (m', stack') => decode_tokens lim m' stack' toks' st
          | None => inl (failure lim m stack false)
          end
      end
  | [] =>
      match st, m with
      | Finished, PDone v => inr v
      | InString, _ => inl (failure lim m stack true)
      | _, _ => inl (failure lim m stack false)
      end
  end.

(** [json.loads(text)] under the limits [lim]: the value, or how it
    fails. *)
Definition decode (lim : limits) (text : str) : error + value :=
  let '(toks, st) := scan LIdle text in decode_tokens lim PValue [] toks st.

(** *** Truth value of a parsed value, [bool(v)] *)

(** A double is zero when the number read is zero or rounds to zero:
    at most [2 ^ -1075], half of the least positive double. *)
Definition float_truthy (f : float_lit) : bool :=
  match f with
  | FNum _ mant exp10 =>
      (0 <? mant) &&
      (if exp10 <? 0 then 10 ^ (- exp10) <? mant * 2 ^ 1075 else true)
  | FInf _ | FNaN => true
  end.

Definition truthy (v : value) : bool :=
  match v with
  | VNull => false
  | VBool b => b
  | VInt n => negb (n =? 0)
  | VFloat f => float_truthy f
  | VStr s => negb (bool_decide (s = []))
  | VList l => match l with [] => false | _ => true end
  | VDict d => match d with [] => false | _ => true end
  end.

End Json.

(** ** The script and its surroundings *)

(** An aware [datetime] in UTC. *)
Record datetime := Datetime {
  year : Z; month : Z; day : Z;
  hour : Z; minute : Z; second : Z; microsecond : Z
}.

(** [t.isoformat(timespec="milliseconds")]: the offset of UTC is written
    [+00:00]. *)
Definition isoformat_milliseconds (t : datetime) : str :=
  zfill 4 (digits (year t)) ++ lit "-" ++ zfill 2 (digits (month t)) ++ lit "-"
  ++ zfill 2 (digits (day t)) ++ lit "T" ++ zfill 2 (digits (hour t)) ++ lit ":"
  ++ zfill 2 (digits (minute t)) ++ lit ":" ++ zfill 2 (digits (second t)) ++ lit "."
  ++ zfill 3 (digits (microsecond t / 1000)) ++ lit "+00:00".

(** [urllib.request.Request(url=..., data=..., headers=..., method=...)] *)
Record Request := {
  url : str;
  data : bytes;
  headers : dict str;
  method : str
}.

(** The exceptions that the script can meet. *)
Inductive exn :=
| SystemExit (code : Z)                 (* sys.exit(code) *)
| KeyError (key : str)                  (* os.environ[key], key absent *)
| UnicodeEncodeError                    (* str.encode *)
| UnicodeDecodeError                    (* bytes.decode *)
| HTTPError (code : Z) (body : bytes)   (* urllib.error.HTTPError: e.code, e.read() *)
| RequestFailure (message : str)        (* any other Exception of urlopen or read; str(e) *)
| JSONDecodeError                       (* json.loads, a text that is not JSON *)
| RecursionError                        (* json.loads, containers nested too deep *)
| ValueError                            (* json.loads, an integer with too many digits *)
| AttributeError.                       (* parsed.get on a value without get *)

(** [except Exception] catches all of them but [SystemExit]. *)
Definition is_Exception (e : exn) : bool :=
  match e with SystemExit _ => false | _ => true end.

(** What the network does with a request: [urlopen] and [read] give the
    body of a 2xx response, or raise [HTTPError] (any other final status)
    or some other exception. *)
Inductive reply :=
| Response (body : bytes)
| ErrorStatus (code : Z) (body : bytes)
| Failure (message : str).

(** The error handler of a text stream, as [sys.stdout.errors] names it.
    The streams encode in UTF-8; the handlers differ on a lone surrogate.
    [strict], the handler of [sys.stdout] in a UTF-8 locale, refuses it.
    [surrogateescape], its handler in the C locale, writes the byte that
    U+DC80 to U+DCFF stand for, and refuses the other surrogates.
    [backslashreplace], the handler of [sys.stderr], writes an escape. *)
Inductive handler := Strict | SurrogateEscape | BackslashReplace.

Record world := {
  environ : gmap str str;       (* os.environ *)
  now : datetime;               (* datetime.now(timezone.utc) *)
  urlopen : Request → reply;
  stdout_errors : handler;      (* sys.stdout.errors *)
  json_limits : Json.limits     (* the room that the interpreter leaves to json.loads *)
}.

(** An argument of [print]: a value, or [str(e)] for an exception whose
    text the interpreter chooses. *)
Inductive pyobj :=
| Value (v : Json.value)
| Message (e : exn).

Definition Text (s : str) : pyobj := Value (Json.VStr s).

Inductive stream := Stdout | Stderr.

Inductive event :=
| Print (f : stream) (args : list pyobj)  (* print(..., file=f) *)
| Wrote (f : stream) (args : list pyobj)  (* a print to f that raised: it wrote args, a space after each, no newline *)
| Clock                                   (* the clock was read *)
| Sent (r : Request)                      (* urlopen(r) was called *)
| Traceback (e : exn).                    (* the interpreter reports an uncaught exception on stderr *)

(** *** A monad for statements: a log of events, and exceptions *)

Inductive result (A : Type) :=
| Ret (a : A)
| Raise (e : exn).
Arguments Ret {A} a.
Arguments Raise {A} e.

Definition M (A : Type) : Type := list event → result A * list event.

Definition ret {A} (a : A) : M A := λ t, (Ret a, t).

Definition bind {A B} (m : M A) (k : A → M B) : M B :=
  λ t, match m t with
       | (Ret a, t') => k a t'
       | (Raise e, t') => (Raise e, t')
       end.

Global Instance M_ret : MRet M := @ret.
Global Instance M_bind : MBind M := λ A B k m, bind m k.

Definition raise {A} (e : exn) : M A := λ t, (Raise e, t).
Definition emit (ev : event) : M unit := λ t, (Ret tt, t ++ [ev]).

(** [try: body / except ...: handler]: the handler of the first clause
    that matches runs; [None] when no clause matches. *)
Definition try_except {A} (body : M A) (handler : exn → option (M A)) : M A :=
  λ t, match body t with
       | (Raise e, t') =>
           match handler e with
           | Some h => h t'
           | None => (Raise e, t')
           end
       | r => r
       end.

(** Whether a stream writes a character, and the text of an argument of
    [print].  The text of a [str] is the [str]; the text of any other
    value is a [repr], which escapes the surrogates. *)
Definition accepts (h : handler) (c : Z) : bool :=
  match h with
  | Strict => bool_decide (is_Some (Utf8.encode_char c))
  | SurrogateEscape =>
      bool_decide (is_Some (Utf8.encode_char c)) || (0xDC80 <=? c) && (c <=? 0xDCFF)
  | BackslashReplace => true
  end.

Definition writable (h : handler) (x : pyobj) : bool :=
  match x with
  | Value (Json.VStr s) => forallb (accepts h) s
  | _ => true
  end.

Definition errors (w : world) (f : stream) : handler :=
  match f with
  | Stdout => stdout_errors w
  | Stderr => BackslashReplace
  end.

(** The arguments that [print] writes before the first one that the
    stream refuses; [None] when it writes them all. *)
Fixpoint written (h : handler) (args : list pyobj) : option (list pyobj) :=
  match args with
  | [] => None
  | x :: args' => if writable h x then cons x <$> written h args' else Some []
  end.

(** [print(..., file=f)] writes its arguments one by one, a space before
    each but the first, and raises at the first that the stream refuses;
    what was written before stays written. *)
Definition print (w : world) (f : stream) (args : list pyobj) : M unit :=
  match written (errors w f) args with
  | None => emit (Print f args)
  | Some before => emit (Wrote f before) ;; raise UnicodeEncodeError
  end.
Definition sys_exit {A} (code : Z) : M A := raise (SystemExit code).

Definition environ_getitem (w : world) (key : str) : M str :=
  match environ w !! key with
  | Some v => ret v
  | None => raise (KeyError key)
  end.

Definition str_encode (s : str) : M bytes :=
  match Utf8.encode s with
  | Some b => ret b
  | None => raise UnicodeEncodeError
  end.

Definition bytes_decode (b : bytes) : M str :=
  match Utf8.decode b with
  | Some s => ret s
  | None => raise UnicodeDecodeError
  end.

Definition datetime_now (w : world) : M datetime :=
  emit Clock ;; ret (now w).

(** [with urlopen(request) as response: response.read()] *)
Definition urlopen_read (w : world) (r : Request) : M bytes :=
  emit (Sent r) ;;
  match urlopen w r with
  | Response body => ret body
  | ErrorStatus code body => raise (HTTPError code body)
  | Failure message => raise (RequestFailure message)
  end.

(** [json.loads(text)] *)
Definition json_loads (w : world) (text : str) : M Json.value :=
  match Json.decode (json_limits w) text with
  | inr v => ret v
  | inl Json.Syntax => raise JSONDecodeError
  | inl Json.TooDeep => raise RecursionError
  | inl Json.TooLong => raise ValueError
  end.

(** [str(e)] as an argument of [print]. *)
Definition str_of_exn (e : exn) : pyobj :=
  match e with
  | RequestFailure message => Text message
  | _ => Message e
  end.

(** *** The statements of the script, in order *)

Definition B12_ENDPOINT : str := lit "https://b12.io/apply/submission".

Definition required_env_vars : list str :=
  [lit "B12_SIGNING_SECRET"; lit "GITHUB_RUN_URL"].

(** [[v for v in required_env_vars if v not in os.environ]] *)
Definition missing (w : world) : list str :=
  filter (λ v, environ w !! v = None) required_env_vars.

Definition validate (w : world) : M unit :=
  match missing w with
  | [] => ret tt
  | _ :: _ =>
      print w Stderr [Text (lit "Missing required environment variables: "
                            ++ join (lit ", ") (missing w))] ;;
      sys_exit 1
  end.

Definition timestamp (t : datetime) : str :=
  replace (lit "+00:00") (lit "Z") (isoformat_milliseconds t).

Definition payload (timestamp action_run_link : str) : dict str :=
  [(lit "timestamp", timestamp);
   (lit "name", lit "James Thomas");
   (lit "email", lit "jamesjacobthomas7@gmail.com");
   (lit "resume_link", lit "https://www.linkedin.com/in/james-thomas007/");
   (lit "repository_link", lit "https://github.com/jtx007/b12-application");
   (lit "action_run_link", action_run_link)].

Definition canonical_json (p : dict str) : str := Json.dumps p.

Definition signature_header (SIGNING_SECRET message : bytes) : str :=
  lit "sha256=" ++ Hmac.hexdigest SIGNING_SECRET message.

(** Lines 67 to 86: the canonical text is encoded once for the signer and
    once for the request. *)
Definition request (SIGNING_SECRET : bytes) (canonical_json : str) : M Request :=
  message ← str_encode canonical_json;
  body ← str_encode canonical_json;
  ret {| url := B12_ENDPOINT;
         data := body;
         headers := [(lit "Content-Type", lit "application/json");
                     (lit "X-Signature-256", signature_header SIGNING_SECRET message)];
         method := lit "POST" |}.

(** Lines 20 to 86: from the environment to the request. *)
Definition prepare (w : world) : M Request :=
  validate w ;;
  secret ← environ_getitem w (lit "B12_SIGNING_SECRET");
  SIGNING_SECRET ← str_encode secret;
  t ← datetime_now w;
  action_run_link ← environ_getitem w (lit "GITHUB_RUN_URL");
  request SIGNING_SECRET (canonical_json (payload (timestamp t) action_run_link)).

(** Lines 88 to 96: the exchange, and the two [except] clauses. *)
Definition on_request_error (w : world) (e : exn) : option (M str) :=
  match e with
  | HTTPError code body =>
      Some (text ← bytes_decode body;
            print w Stderr [Text (lit "HTTP error:"); Value (Json.VInt code); Text text] ;;
            sys_exit 1)
  | _ =>
      if is_Exception e
      then Some (print w Stderr [Text (lit "Request failed:"); str_of_exn e] ;;
                 sys_exit 1)
      else None
  end.

Definition exchange (w : world) (r : Request) : M str :=
  try_except
    (body ← urlopen_read w r; bytes_decode body)
    (on_request_error w).

(** Lines 101 to 105. *)
Definition parse_response (w : world) (response_body : str) : M Json.value :=
  try_except
    (json_loads w response_body)
    (λ e, match e with
          | JSONDecodeError =>
              Some (print w Stderr [Text (lit "Invalid JSON response:");
                                    Text response_body] ;;
                    sys_exit 1)
          | _ => None
          end).

(** [x is True] *)
Definition is_True (v : Json.value) : bool :=
  match v with Json.VBool true => true | _ => false end.

(** [d.get(k)]: [None] for an absent key. *)
Definition dict_get_default (k : str) (d : dict Json.value) : Json.value :=
  default Json.VNull (dict_get k d).

(** Lines 110 to 114.  Only a dict has a [get]; on any other value the
    call [parsed.get] raises [AttributeError] before anything is printed. *)
Definition report (w : world) (parsed : Json.value) : M unit :=
  match parsed with
  | Json.VDict d =>
      if is_True (dict_get_default (lit "success") d) && dict_has (lit "receipt") d
      then print w Stdout [Text (lit "Submission receipt:");
                           Value (dict_get_default (lit "receipt") d)]
      else print w Stderr [Text (lit "Unexpected response:"); Value parsed] ;; sys_exit 1
  | _ => raise AttributeError
  end.

Definition main (w : world) : M unit :=
  r ← prepare w;
  response_body ← exchange w r;
  parsed ← parse_response w response_body;
  report w parsed.

(** *** A run of the interpreter on the script *)

Record outcome := {
  trace : list event;
  exit_status : Z
}.

(** The script ends normally (status 0), by [SystemExit] (its code), or
    by another exception: the interpreter then prints a traceback on
    stderr and the status is 1. *)
Definition run (w : world) : outcome :=
  match main w [] with
  | (Ret _, t) => {| trace := t; exit_status := 0 |}
  | (Raise (SystemExit code), t) => {| trace := t; exit_status := code |}
  | (Raise e, t) => {| trace := t ++ [Traceback e]; exit_status := 1 |}
  end.

(** What reached each stream. *)
Definition on_stdout (ev : event) : bool :=
  match ev with Print Stdout _ | Wrote Stdout _ => true | _ => false end.
Definition on_stderr (ev : event) : bool :=
  match ev with Print Stderr _ | Wrote Stderr _ | Traceback _ => true | _ => false end.
Definition stdout (o : outcome) : list event := List.filter on_stdout (trace o).
Definition stderr (o : outcome) : list event := List.filter on_stderr (trace o).
Definition requests (o : outcome) : list Request :=
  omap (λ ev, match ev with Sent r => Some r | _ => None end) (trace o).

(** The text of a printed argument ([str(x)]), for the values whose text
    is plain: a [str] is printed as it is, an [int] in decimal. *)
Definition text_of (x : pyobj) : option str :=
  match x with
  | Value (Json.VStr s) => Some s
  | Value (Json.VInt n) => Some (str_of_int n)
  | Value Json.VNull => Some (lit "None")
  | Value (Json.VBool b) => Some (lit (if b then "True" else "False"))
  | _ => None
  end.

(** The line that [print] writes for these arguments, without its
    newline. *)
Definition line (args : list pyobj) : option str :=
  join (lit " ") <$> mapM text_of args.

(** ** Vocabulary of the properties *)

Definition is_byte (b : Z) : Prop := 0 ≤ b < 256.
Definition is_ascii (c : Z) : Prop := 0 ≤ c < 128.

(** A [str] that [encode("utf-8")] accepts: one without surrogates. *)
Definition encodable (s : str) : Prop := is_Some (Utf8.encode s).

Definition is_lower_hex (c : Z) : bool :=
  (ord "0" <=? c) && (c <=? ord "9") || (ord "a" <=? c) && (c <=? ord "f").

Definition SECRET_NAME : str := lit "B12_SIGNING_SECRET".
Definition RUN_URL_NAME : str := lit "GITHUB_RUN_URL".

(** The request of lines 78 to 86, for a key and a body. *)
Definition post (key body : bytes) : Request :=
  {| url := B12_ENDPOINT;
     data := body;
     headers := [(lit "Content-Type", lit "application/json");
                 (lit "X-Signature-256", signature_header key body)];
     method := lit "POST" |}.

Definition missing_message (w : world) : event :=
  Print Stderr [Text (lit "Missing required environment variables: "
                      ++ join (lit ", ") (missing w))].

Definition receipt_line (receipt : Json.value) : event :=
  Print Stdout [Text (lit "Submission receipt:"); Value receipt].

(** What a [print] of the receipt leaves on stdout when the stream
    refuses the receipt: the first argument and the separator. *)
Definition cut_receipt_line : event :=
  Wrote Stdout [Text (lit "Submission receipt:")].

Definition unexpected_line (parsed : Json.value) : event :=
  Print Stderr [Text (lit "Unexpected response:"); Value parsed].

Definition http_error_line (code : Z) (text : str) : event :=
  Print Stderr [Text (lit "HTTP error:"); Value (Json.VInt code); Text text].

(** The success path: the receipt is printed on stdout and the status
    is 0. *)
Definition success_path (o : outcome) : Prop :=
  ∃ receipt, stdout o = [receipt_line receipt] ∧ exit_status o = 0.

(** The test of line 110: a dict whose [success] is [True] itself and
    that has a [receipt]. *)
Definition accepted (parsed : Json.value) : Prop :=
  ∃ d, parsed = Json.VDict d
       ∧ dict_get (lit "success") d = Some (Json.VBool true)
       ∧ is_Some (dict_get (lit "receipt") d).


(** The condition of the success path in the words of the specification:
    a truthy [success] field and a [receipt] field. *)
Definition truthy_success_and_receipt (parsed : Json.value) : Prop :=
  ∃ d v, parsed = Json.VDict d
         ∧ dict_get (lit "success") d = Some v ∧ Json.truthy v = true
         ∧ is_Some (dict_get (lit "receipt") d).

(** The transport was called with [r] and answered [a]. *)
Definition answered (w : world) (r : Request) (a : reply) : Prop :=
  r ∈ requests (run w) ∧ urlopen w r = a.

(** The response was a 2xx response whose body decodes and parses to
    [parsed]. *)
Definition parsed_response (w : world) (parsed : Json.value) : Prop :=
  ∃ r body text,
    answered w r (Response body)
    ∧ Utf8.decode body = Some text
    ∧ Json.decode (json_limits w) text = inr parsed.

(** The failure branches of the script. *)
Inductive failure_branch (w : world) : Prop :=
| missing_configuration :
    missing w ≠ [] → failure_branch w
| http_error r code body :
    answered w r (ErrorStatus code body) → failure_branch w
| transport_failure r message :
    answered w r (Failure message) → failure_branch w
| undecodable_response r body :
    answered w r (Response body) → Utf8.decode body = None → failure_branch w
| unparseable_response r body text :
    answered w r (Response body) → Utf8.decode body = Some text →
    Json.loads text = None → failure_branch w
| unexpected_shape parsed :
    parsed_response w parsed → ¬ accepted parsed → failure_branch w.

(** *** Sample surroundings *)

Definition quoted (s : string) : str := [dquote] ++ lit s ++ [dquote].

Definition sample_now : datetime := Datetime 2024 1 2 3 4 5 678901.

Definition sample_environ : gmap str str :=
  <[SECRET_NAME := lit "s3cr3t"]>
    (<[RUN_URL_NAME := lit "https://github.com/jtx007/b12-application/actions/runs/1"]> ∅).

(** CPython 3.11 with its defaults, for a call of [json.loads] at module
    level: of the recursion limit of 1000 it leaves 995 levels to the
    containers, three of which it takes to build a [JSONDecodeError]; an
    integer has at most 4300 digits. *)
Definition cpython_limits : Json.limits :=
  {| Json.max_nesting := 994; Json.error_nesting := 992; Json.max_digits := 4300 |}.

(** A mocked transport: the same reply to every request; the interpreter
    in a UTF-8 locale. *)
Definition mocked (env : gmap str str) (a : reply) : world :=
  {| environ := env; now := sample_now; urlopen := λ _, a;
     stdout_errors := Strict; json_limits := cpython_limits |}.

(** [{"success": true, "receipt": "R123"}] *)
Definition receipt_body : bytes :=
  lit "{" ++ quoted "success" ++ lit ": true, " ++ quoted "receipt" ++ lit ": "
  ++ quoted "R123" ++ lit "}".


(** The body and the request of the sample surroundings. *)
Definition sample_body : bytes :=
  default []
    (Utf8.encode
       (canonical_json
          (payload (timestamp sample_now)
             (lit "https://github.com/jtx007/b12-application/actions/runs/1")))).

Definition sample_request : Request := post (lit "s3cr3t") sample_body.

(** The sample surroundings with a transport that answers 2xx with the
    given body. *)
Definition responding (body : bytes) : world :=
  mocked sample_environ (Response body).

Definition receipt_parsed : Json.value :=
  Json.VDict [(lit "success", Json.VBool true);
              (lit "receipt", Json.VStr (lit "R123"))].


(** Surroundings with an empty secret and an empty run URL. *)
Definition empty_environ : gmap str str :=
  <[SECRET_NAME := []]> (<[RUN_URL_NAME := []]> ∅).

(** ** Vocabulary of the further properties *)

Definition request_failed_line (what : pyobj) : event :=
  Print Stderr [Text (lit "Request failed:"); what].

Definition invalid_json_line (text : str) : event :=
  Print Stderr [Text (lit "Invalid JSON response:"); Text text].

(** 996 opening brackets: one more than CPython lets nest. *)
Definition deep_body : bytes := concat (replicate 996 (lit "[")).

(** An integer of 4301 digits: one more than CPython converts. *)
Definition long_body : bytes := replicate 4301 (ord "1").

(** [{"success": true, "receipt": "\ud800"}], a receipt that is one lone
    surrogate, and what it parses to. *)
Definition surrogate_body : bytes :=
  lit "{" ++ quoted "success" ++ lit ": true, " ++ quoted "receipt" ++ lit ": "
  ++ quoted "\ud800" ++ lit "}".

Definition surrogate_parsed : dict Json.value :=
  [(lit "success", Json.VBool true); (lit "receipt", Json.VStr [0xD800])].

(** A token that meets no limit: it opens no container and is no
    integer. *)
Definition plain_token (t : Json.token) : bool :=
  match t with
  | Json.TLBrace | Json.TLBracket | Json.TScalar (Json.VInt _) => false
  | _ => true
  end.

(** The exception that [json.loads] raises. *)
Definition exn_of (e : Json.error) : exn :=
  match e with
  | Json.Syntax => JSONDecodeError
  | Json.TooDeep => RecursionError
  | Json.TooLong => ValueError
  end.

(** The sample surroundings with another secret. *)
Definition other_environ : gmap str str :=
  <[SECRET_NAME := lit "0ther"]> sample_environ.

(** The number that a text of decimal digits denotes. *)
Definition int_of_digits (s : str) : Z :=
  fold_left (λ a c, 10 * a + (c - ord "0")) s 0.

(** [s] is [n] written with exactly [width] decimal digits. *)
Definition decimal (width : nat) (n : Z) (s : str) : Prop :=
  length s = width ∧ Forall (λ c, Json.is_digit c = true) s ∧ int_of_digits s = n.

(** The fields of a [datetime] are in these ranges. *)
Definition valid_datetime (t : datetime) : Prop :=
  1 ≤ year t ≤ 9999 ∧ 1 ≤ month t ≤ 12 ∧ 1 ≤ day t ≤ 31
  ∧ 0 ≤ hour t ≤ 23 ∧ 0 ≤ minute t ≤ 59 ∧ 0 ≤ second t ≤ 59
  ∧ 0 ≤ microsecond t ≤ 999999.

(** A character that [json.dumps] writes as it is: not a control
    character, not the quote, not the backslash. *)
Definition plain_char (c : Z) : Prop := 0x20 ≤ c ∧ c ≠ dquote ∧ c ≠ backslash.

(** Ascending order of the keys. *)
Definition key_le {V} (x y : str * V) : Prop := str_leb x.1 y.1 = true.

(** The lexer reads [text] from state [s] without emitting a token, and
    the state it is left in. *)
Fixpoint silent (s : Json.lex_state) (text : str) : option Json.lex_state :=
  match text with
  | [] => Some s
  | c :: text' =>
      match Json.lex_step s c with
      | Some (s', []) => silent s' text'
      | _ => None
      end
  end.

(** Read from the idle state, the text [x] gives the tokens [toks] and
    leaves the lexer idle. *)
Definition emits (x : str) (toks : list Json.token) : Prop :=
  ∀ rest,
    Json.lex Json.LIdle (x ++ rest)
    = more ← Json.lex Json.LIdle rest; Some (toks ++ more).

(** The tokens of the items of an object of strings, with the commas
    between them. *)
Definition item_tokens (kv : str * str) : list Json.token :=
  [Json.TScalar (Json.VStr kv.1); Json.TColon; Json.TScalar (Json.VStr kv.2)].

Fixpoint items_tokens (items : list (str * str)) : list Json.token :=
  match items with
  | [] => []
  | [kv] => item_tokens kv
  | kv :: rest => item_tokens kv ++ [Json.TComma] ++ items_tokens rest
  end.

(** A dict of strings as [json.loads] returns it. *)
Definition string_value (kv : str * str) : str * Json.value :=
  (kv.1, Json.VStr kv.2).

(** * Checks of the library models *)

Example sha256_abc :
  concat (map hex_byte (Sha256.digest (lit "abc")))
  = lit "ba7816bf8f01cfea414140de5dae2223b00361a396177a9cb410ff61f20015ad".
Proof. vm_compute. reflexivity. Qed.

Example sha256_two_blocks :
  concat (map hex_byte
            (Sha256.digest (lit "abcdbcdecdefdefgefghfghighijhijkijkljklmklmnlmnomnopnopq")))
  = lit "248d6a61d20638b8e5c026930c3e6039a33ce45964ff2167f6ecedd419db06c1".
Proof. vm_compute. reflexivity. Qed.

Example hmac_rfc4231_case2 :
  Hmac.hexdigest (lit "Jefe") (lit "what do ya want for nothing?")
  = lit "5bdcc146bf60754e6a042426089575c75a003f089d2739839dec58b964ec3843".
Proof. vm_compute. reflexivity. Qed.

Example hmac_rfc4231_long_key :
  Hmac.hexdigest (replicate 131 0xAA)
    (lit "Test Using Larger Than Block-Size Key - Hash Key First")
  = lit "60e431591ee0b67f0d8a26aacbf5b77f8e0bc6213728c5140546040f0ee37f54".
Proof. vm_compute. reflexivity. Qed.

Example hmac_empty :
  Hmac.hexdigest [] []
  = lit "b613679a0814d9ec772f95d778c35fc5ff1697c493715653c6c712144292c5ad".
Proof. vm_compute. reflexivity. Qed.



(** * Properties *)

(** ** The order on strings *)

Lemma str_leb_refl (a : str) : str_leb a a = true.
Proof.
  induction a as [|x a IH]; [done|]; simpl.
  rewrite Z.eqb_refl, IH. by rewrite orb_true_r.
Qed.

Lemma str_leb_total (a b : str) : str_leb a b = true ∨ str_leb b a = true.
Proof.
  revert b; induction a as [|x a IH]; intros [|y b]; simpl; auto.
  destruct (Z.lt_trichotomy x y) as [Hlt|[->|Hgt]].
  - left. apply Z.ltb_lt in Hlt. by rewrite Hlt.
  - rewrite Z.ltb_irrefl, Z.eqb_refl; simpl. apply IH.
  - right. apply Z.ltb_lt in Hgt. by rewrite Hgt.
Qed.

Lemma str_leb_antisym (a b : str) :
  str_leb a b = true → str_leb b a = true → a = b.
Proof.
  revert b; induction a as [|x a IH]; intros [|y b]; simpl; try done.
  intros H1 H2.
  apply orb_true_iff in H1 as [H1|H1]; apply orb_true_iff in H2 as [H2|H2];
    try apply Z.ltb_lt in H1; try apply Z.ltb_lt in H2;
    try apply andb_true_iff in H1 as [E1 H1];
    try apply andb_true_iff in H2 as [E2 H2];
    try apply Z.eqb_eq in E1; try apply Z.eqb_eq in E2; try lia.
  subst. f_equal. by apply IH.
Qed.

Lemma str_leb_trans (a b c : str) :
  str_leb a b = true → str_leb b c = true → str_leb a c = true.
Proof.
  revert b c; induction a as [|x a IH]; intros [|y b] [|z c]; simpl; try done.
  intros H1 H2.
  apply orb_true_iff in H1 as [H1|H1]; apply orb_true_iff in H2 as [H2|H2];
    try apply Z.ltb_lt in H1; try apply Z.ltb_lt in H2;
    try apply andb_true_iff in H1 as [E1 H1];
    try apply andb_true_iff in H2 as [E2 H2];
    try apply Z.eqb_eq in E1; try apply Z.eqb_eq in E2;
    apply orb_true_iff.
  - left. apply Z.ltb_lt. lia.
  - left. apply Z.ltb_lt. lia.
  - left. apply Z.ltb_lt. lia.
  - right. subst. rewrite Z.eqb_refl; simpl. by apply (IH b).
Qed.

Lemma str_leb_false (a b : str) : str_leb a b = false → str_leb b a = true.
Proof. destruct (str_leb_total a b) as [H|H]; congruence. Qed.

(** ** Sorting the items of a dict *)

(** Closes a goal whose hypotheses on [str_leb] contradict the order
    laws, given that two keys differ. *)
Ltac order_contradiction Hne :=
  repeat match goal with
         | H : str_leb _ _ = false |- _ => apply str_leb_false in H
         end;
  match goal with
  | H1 : str_leb ?a ?b = true, H2 : str_leb ?b ?a = true |- _ =>
      exfalso; apply Hne;
      first [exact (str_leb_antisym _ _ H1 H2) | exact (str_leb_antisym _ _ H2 H1)]
  | H1 : str_leb ?a ?b = true, H2 : str_leb ?b ?c = true,
    H3 : str_leb ?c ?a = true |- _ =>
      exfalso; apply Hne;
      first [ exact (str_leb_antisym _ _ H1 (str_leb_trans _ _ _ H2 H3))
            | exact (str_leb_antisym _ _ (str_leb_trans _ _ _ H2 H3) H1)
            | exact (str_leb_antisym _ _ H2 (str_leb_trans _ _ _ H3 H1))
            | exact (str_leb_antisym _ _ (str_leb_trans _ _ _ H3 H1) H2)
            | exact (str_leb_antisym _ _ H3 (str_leb_trans _ _ _ H1 H2))
            | exact (str_leb_antisym _ _ (str_leb_trans _ _ _ H1 H2) H3) ]
  end.

Section Sorting.
Context {V : Type}.
Implicit Types (x y : str * V) (l : list (str * V)).

(** Two insertions of items with different keys commute, whatever the
    list. *)
Lemma insert_item_comm x y l :
  x.1 ≠ y.1 →
  Json.insert_item x (Json.insert_item y l) = Json.insert_item y (Json.insert_item x l).
Proof.
  intros Hne. induction l as [|z l IH]; simpl.
  - destruct (str_leb x.1 y.1) eqn:Hxy, (str_leb y.1 x.1) eqn:Hyx;
      solve [done | order_contradiction Hne].
  - destruct (str_leb y.1 z.1) eqn:Hyz, (str_leb x.1 z.1) eqn:Hxz; simpl;
      rewrite ?Hyz, ?Hxz;
      destruct (str_leb x.1 y.1) eqn:Hxy, (str_leb y.1 x.1) eqn:Hyx;
      simpl; rewrite ?Hyz, ?Hxz;
      solve [done | by rewrite IH | order_contradiction Hne].
Qed.

(** The sorted items depend on the items only, not on the order in
    which the dict was filled. *)
Lemma sorted_items_permutation (d1 d2 : dict V) :
  NoDup d1.*1 → d1 ≡ₚ d2 → Json.sorted_items d1 = Json.sorted_items d2.
Proof.
  intros Hnd Hp. unfold Json.sorted_items.
  apply (foldr_permutation (=)); [solve_proper| |done].
  intros j1 a1 j2 a2 b Hj H1 H2. apply insert_item_comm.
  intros Heq. apply Hj.
  eapply (NoDup_lookup _ _ _ _ Hnd); rewrite list_lookup_fmap.
  - by rewrite H1.
  - rewrite H2; simpl. by rewrite Heq.
Qed.

End Sorting.

(** ** The digest *)

Lemma byte_land (x : Z) : 0 ≤ Z.land x 0xFF < 256.
Proof.
  change 0xFF with (Z.ones 8). rewrite Z.land_ones by lia.
  apply Z.mod_pos_bound; lia.
Qed.

Lemma word_bytes_bytes (w : Z) : Forall is_byte (Sha256.word_bytes w).
Proof. repeat constructor; apply byte_land. Qed.

Lemma sha256_digest_length (msg : bytes) : length (Sha256.digest msg) = 32%nat.
Proof. reflexivity. Qed.

Lemma sha256_digest_bytes (msg : bytes) : Forall is_byte (Sha256.digest msg).
Proof.
  unfold Sha256.digest, Sha256.output.
  repeat (apply Forall_app; split); apply word_bytes_bytes.
Qed.

Lemma hex_digit_lower (n : Z) : 0 ≤ n < 16 → is_lower_hex (hex_digit n) = true.
Proof.
  intros Hn.
  assert (Hcases : n = 0 ∨ n = 1 ∨ n = 2 ∨ n = 3 ∨ n = 4 ∨ n = 5 ∨ n = 6 ∨ n = 7
                   ∨ n = 8 ∨ n = 9 ∨ n = 10 ∨ n = 11 ∨ n = 12 ∨ n = 13
                   ∨ n = 14 ∨ n = 15) by lia.
  repeat destruct Hcases as [->|Hcases]; try reflexivity.
  subst; reflexivity.
Qed.

Lemma hex_byte_lower (b : Z) :
  is_byte b → Forall (λ c, is_lower_hex c = true) (hex_byte b).
Proof.
  intros [Hlo Hhi]. unfold hex_byte.
  repeat constructor; apply hex_digit_lower.
  - rewrite Z.shiftr_div_pow2 by lia. change (2 ^ 4) with 16.
    split; [apply Z.div_pos; lia | apply Z.div_lt_upper_bound; lia].
  - change 0xF with (Z.ones 4). rewrite Z.land_ones by lia.
    apply Z.mod_pos_bound; lia.
Qed.

Lemma hex_length (b : bytes) :
  length (concat (map hex_byte b)) = (2 * length b)%nat.
Proof. induction b as [|x b IH]; simpl; [done | rewrite IH; lia]. Qed.

Lemma hex_lower (b : bytes) :
  Forall is_byte b →
  Forall (λ c, is_lower_hex c = true) (concat (map hex_byte b)).
Proof.
  induction 1 as [|x b Hx _ IH]; [constructor|].
  change (Forall (λ c, is_lower_hex c = true)
            (hex_byte x ++ concat (map hex_byte b))).
  apply Forall_app; split; [by apply hex_byte_lower | done].
Qed.

Lemma hexdigest_length (key message : bytes) :
  length (Hmac.hexdigest key message) = 64%nat.
Proof. unfold Hmac.hexdigest. rewrite hex_length. reflexivity. Qed.

Lemma hexdigest_lower (key message : bytes) :
  Forall (λ c, is_lower_hex c = true) (Hmac.hexdigest key message).
Proof. apply hex_lower, sha256_digest_bytes. Qed.

(** ** Which texts encode *)

Lemma encode_app (a b : str) :
  Utf8.encode (a ++ b) = x ← Utf8.encode a; y ← Utf8.encode b; Some (x ++ y).
Proof.
  induction a as [|c a IH]; simpl.
  - by destruct (Utf8.encode b).
  - rewrite IH. destruct (Utf8.encode_char c), (Utf8.encode a); simpl; try done.
    destruct (Utf8.encode b); simpl; [|done]. by rewrite app_assoc.
Qed.

Lemma encodable_app (a b : str) : encodable (a ++ b) ↔ encodable a ∧ encodable b.
Proof.
  unfold encodable. rewrite encode_app.
  destruct (Utf8.encode a), (Utf8.encode b); simpl; split;
    try (intros [? ?]); try split; eauto; by apply is_Some_None in H.
Qed.

Lemma encode_char_ascii (c : Z) : is_ascii c → Utf8.encode_char c = Some [c].
Proof.
  intros [Hlo Hhi]. unfold Utf8.encode_char.
  destruct (Z.ltb_spec c 0); [lia|]. destruct (Z.ltb_spec c 0x80); [done|lia].
Qed.

Lemma encode_ascii (s : str) : Forall is_ascii s → Utf8.encode s = Some s.
Proof.
  induction 1 as [|c s Hc _ IH]; simpl; [done|].
  by rewrite (encode_char_ascii c Hc), IH.
Qed.

Lemma ascii_encodable (s : str) : Forall is_ascii s → encodable s.
Proof. intros H. unfold encodable. rewrite (encode_ascii s H). eauto. Qed.

(** A literal of the source encodes: it is ASCII. *)
Ltac literal_encodable := by (apply ascii_encodable; repeat constructor).

Lemma encodable_cons (c : Z) (s : str) :
  encodable (c :: s) ↔ is_Some (Utf8.encode_char c) ∧ encodable s.
Proof.
  unfold encodable; simpl.
  destruct (Utf8.encode_char c), (Utf8.encode s); split;
    try (intros [? ?]); try split; eauto; by apply is_Some_None in H.
Qed.

Lemma lower_hex_ascii (c : Z) : is_lower_hex c = true → is_ascii c.
Proof.
  unfold is_lower_hex, is_ascii. intros H.
  apply orb_true_iff in H as [H|H]; apply andb_true_iff in H as [H1 H2];
    apply Z.leb_le in H1, H2; revert H1 H2; unfold ord; simpl; lia.
Qed.

Lemma hex_byte_ascii (b : Z) : is_byte b → Forall is_ascii (hex_byte b).
Proof.
  intros Hb. eapply Forall_impl; [by apply hex_byte_lower|].
  intros c. apply lower_hex_ascii.
Qed.

(** An escape is ASCII; an unescaped character stands for itself. *)
Lemma escape_char_encodable (c : Z) :
  is_Some (Utf8.encode_char c) → encodable (Json.escape_char c).
Proof.
  intros Hc. unfold Json.escape_char.
  repeat (match goal with
          | |- context [if ?b then _ else _] => destruct b eqn:?
          end; [literal_encodable|]).
  destruct (_ && _) eqn:Hctl.
  - apply andb_true_iff in Hctl as [Hlo%Z.leb_le Hhi%Z.ltb_lt].
    apply ascii_encodable, Forall_app. split; [by repeat constructor|].
    apply hex_byte_ascii. unfold is_byte. lia.
  - apply encodable_cons. split; [done|]. unfold encodable; simpl; eauto.
Qed.

Lemma escaped_encodable (s : str) :
  encodable s → encodable (concat (map Json.escape_char s)).
Proof.
  induction s as [|c s IH]; [done|].
  intros [Hc Hs]%encodable_cons.
  change (encodable (Json.escape_char c ++ concat (map Json.escape_char s))).
  apply encodable_app. split; [by apply escape_char_encodable | by apply IH].
Qed.

Lemma encode_string_encodable (s : str) :
  encodable s → encodable (Json.encode_string s).
Proof.
  intros Hs. unfold Json.encode_string.
  apply encodable_app; split; [literal_encodable|].
  apply encodable_app; split; [by apply escaped_encodable | literal_encodable].
Qed.

Lemma join_encodable (sep : str) (parts : list str) :
  encodable sep → Forall encodable parts → encodable (join sep parts).
Proof.
  intros Hsep. induction 1 as [|p parts Hp Hparts IH]; [by apply ascii_encodable|].
  destruct parts as [|p' parts]; [done|].
  change (encodable (p ++ sep ++ join sep (p' :: parts))).
  by repeat (apply encodable_app; split).
Qed.

Lemma insert_item_perm {V} (x : str * V) (l : list (str * V)) :
  Json.insert_item x l ≡ₚ x :: l.
Proof.
  induction l as [|y l IH]; simpl; [done|].
  destruct (str_leb x.1 y.1); [done|]. rewrite IH. apply Permutation_swap.
Qed.

Lemma sorted_items_perm {V} (d : dict V) : Json.sorted_items d ≡ₚ d.
Proof.
  induction d as [|x d IH]; simpl; [done|].
  by rewrite insert_item_perm, IH.
Qed.

(** The canonical text of a dict encodes when its keys and values do. *)
Lemma dumps_encodable (d : dict str) :
  Forall (λ kv, encodable kv.1 ∧ encodable kv.2) d → encodable (Json.dumps d).
Proof.
  intros Hd. unfold Json.dumps.
  assert (Hs : Forall (λ kv, encodable kv.1 ∧ encodable kv.2) (Json.sorted_items d)).
  { eapply Permutation_Forall; [symmetry; apply sorted_items_perm | exact Hd]. }
  apply encodable_app; split; [literal_encodable|].
  apply encodable_app; split; [|literal_encodable].
  apply join_encodable; [literal_encodable|].
  apply List.Forall_map.
  eapply Forall_impl; [exact Hs|]. intros [k v] [Hk Hv]; cbn [fst snd] in *.
  unfold Json.encode_item; cbn [fst snd].
  apply encodable_app; split; [by apply encode_string_encodable|].
  apply encodable_app; split; [literal_encodable | by apply encode_string_encodable].
Qed.

Lemma digits_fuel_ascii (fuel : nat) (n : Z) (acc : str) :
  Forall is_ascii acc → Forall is_ascii (digits_fuel fuel n acc).
Proof.
  revert n acc. induction fuel as [|fuel IH]; intros n acc Hacc; simpl; [done|].
  assert (Hd : is_ascii (ord "0" + n mod 10)).
  { pose proof (Z.mod_pos_bound n 10). unfold is_ascii, ord; simpl. lia. }
  destruct (_ =? _); [by constructor | apply IH; by constructor].
Qed.

Lemma zfill_digits_ascii (width : nat) (n : Z) :
  Forall is_ascii (zfill width (digits n)).
Proof.
  unfold zfill, digits. apply Forall_app. split.
  - apply Forall_replicate. unfold is_ascii, ord; simpl. lia.
  - by apply digits_fuel_ascii.
Qed.

Lemma strip_prefix_Forall (P : Z → Prop) (prefix s rest : str) :
  strip_prefix prefix s = Some rest → Forall P s → Forall P rest.
Proof.
  revert s. induction prefix as [|p prefix IH]; intros [|c s]; simpl; try congruence.
  destruct (p =? c); [|done]. intros Hr Hs. apply (IH s Hr). by inversion Hs.
Qed.

Lemma replace_Forall (P : Z → Prop) (old new s : str) :
  Forall P new → Forall P s → Forall P (replace old new s).
Proof.
  intros Hnew. unfold replace. generalize (S (length s)) as fuel.
  intros fuel; revert s. induction fuel as [|fuel IH]; intros s Hs; [done|].
  destruct s as [|c s]; [done|]. cbn [replace_fuel].
  destruct (strip_prefix old (c :: s)) as [rest|] eqn:Hp.
  - apply Forall_app. split; [done|].
    apply IH. by apply (strip_prefix_Forall P old (c :: s)).
  - inversion Hs; subst. constructor; [done | by apply IH].
Qed.

(** The timestamp is ASCII, whatever the clock says. *)
Lemma timestamp_ascii (t : datetime) : Forall is_ascii (timestamp t).
Proof.
  unfold timestamp. apply replace_Forall; [by repeat constructor|].
  unfold isoformat_milliseconds.
  repeat first [ apply zfill_digits_ascii
               | solve [repeat constructor; done]
               | apply Forall_app; split ].
Qed.

(** The canonical text of the payload encodes when the run URL does. *)
Lemma payload_encodable (t : datetime) (u : str) :
  encodable u → encodable (canonical_json (payload (timestamp t) u)).
Proof.
  intros Hu. apply dumps_encodable. unfold payload.
  repeat (apply Forall_cons; split;
          [split; simpl;
           first [ exact Hu
                 | apply ascii_encodable, timestamp_ascii
                 | by apply ascii_encodable; repeat constructor ]|]).
  constructor.
Qed.

(** ** The stages of the script *)

(** [sys.stderr] writes every text. *)
Lemma written_backslashreplace (args : list pyobj) :
  written BackslashReplace args = None.
Proof.
  induction args as [|x args IH]; [done|]. cbn [written].
  assert (Hx : writable BackslashReplace x = true).
  { destruct x as [[| | | |s| |]|]; try done. cbn [writable]. by induction s. }
  by rewrite Hx, IH.
Qed.

Lemma print_stderr (w : world) (args : list pyobj) :
  print w Stderr args = emit (Print Stderr args).
Proof. unfold print. cbn [errors]. by rewrite written_backslashreplace. Qed.

(** Every stream writes the first argument of line 111. *)
Lemma writable_label (h : handler) :
  writable h (Text (lit "Submission receipt:")) = true.
Proof. destruct h; vm_compute; reflexivity. Qed.

Lemma print_receipt (w : world) (receipt : Json.value) :
  print w Stdout [Text (lit "Submission receipt:"); Value receipt] =
    if writable (stdout_errors w) (Value receipt)
    then emit (receipt_line receipt)
    else (emit cut_receipt_line ;; raise UnicodeEncodeError).
Proof.
  unfold print. cbn [errors written]. rewrite writable_label.
  by destruct (writable (stdout_errors w) (Value receipt)).
Qed.

Lemma missing_spec (w : world) (v : str) :
  v ∈ missing w ↔ v ∈ required_env_vars ∧ environ w !! v = None.
Proof. unfold missing. rewrite list_elem_of_filter. tauto. Qed.

Lemma missing_cases (w : world) :
  missing w =
    match environ w !! SECRET_NAME, environ w !! RUN_URL_NAME with
    | Some _, Some _ => []
    | Some _, None => [RUN_URL_NAME]
    | None, Some _ => [SECRET_NAME]
    | None, None => [SECRET_NAME; RUN_URL_NAME]
    end.
Proof.
  unfold missing, required_env_vars. fold SECRET_NAME RUN_URL_NAME.
  rewrite !filter_cons, filter_nil.
  destruct (environ w !! SECRET_NAME), (environ w !! RUN_URL_NAME);
    repeat case_decide; done.
Qed.

Lemma missing_nil (w : world) :
  missing w = [] ↔
  is_Some (environ w !! SECRET_NAME) ∧ is_Some (environ w !! RUN_URL_NAME).
Proof.
  rewrite missing_cases.
  destruct (environ w !! SECRET_NAME), (environ w !! RUN_URL_NAME);
    split; try done; intros [[? ?] [? ?]]; done.
Qed.

Lemma request_spec (key : bytes) (text : str) (t : list event) :
  request key text t =
    match Utf8.encode text with
    | Some body => (Ret (post key body), t)
    | None => (Raise UnicodeEncodeError, t)
    end.
Proof.
  unfold request, str_encode, mbind, M_bind, bind, ret, raise.
  destruct (Utf8.encode text); reflexivity.
Qed.

Lemma prepare_missing (w : world) :
  missing w ≠ [] → prepare w [] = (Raise (SystemExit 1), [missing_message w]).
Proof.
  intros Hm. unfold prepare, validate, missing_message.
  destruct (missing w); [done|]. rewrite print_stderr. reflexivity.
Qed.

Lemma prepare_present (w : world) (s u : str) :
  environ w !! SECRET_NAME = Some s → environ w !! RUN_URL_NAME = Some u →
  prepare w [] =
    match Utf8.encode s with
    | None => (Raise UnicodeEncodeError, [])
    | Some key =>
        match Utf8.encode (canonical_json (payload (timestamp (now w)) u)) with
        | None => (Raise UnicodeEncodeError, [Clock])
        | Some body => (Ret (post key body), [Clock])
        end
    end.
Proof.
  intros Hs Hu.
  assert (Hm : missing w = []) by (apply missing_nil; rewrite Hs, Hu; eauto).
  unfold SECRET_NAME, RUN_URL_NAME in *.
  unfold prepare, validate, environ_getitem, datetime_now, emit, str_encode,
    ret, raise, mbind, M_bind, bind.
  rewrite Hm, Hs; cbv beta iota.
  destruct (Utf8.encode s) as [key|]; [|reflexivity]; cbv beta iota.
  rewrite Hu; cbv beta iota. rewrite request_spec.
  destruct (Utf8.encode _); reflexivity.
Qed.

Lemma exchange_spec (w : world) (r : Request) (t : list event) :
  exchange w r t =
    match urlopen w r with
    | Response body =>
        match Utf8.decode body with
        | Some text => (Ret text, t ++ [Sent r])
        | None =>
            (Raise (SystemExit 1),
             t ++ [Sent r; Print Stderr [Text (lit "Request failed:");
                                         Message UnicodeDecodeError]])
        end
    | ErrorStatus code body =>
        match Utf8.decode body with
        | Some text => (Raise (SystemExit 1), t ++ [Sent r; http_error_line code text])
        | None => (Raise UnicodeDecodeError, t ++ [Sent r])
        end
    | Failure message =>
        (Raise (SystemExit 1),
         t ++ [Sent r; Print Stderr [Text (lit "Request failed:"); Text message]])
    end.
Proof.
  unfold exchange, try_except, urlopen_read, bytes_decode,
    emit, raise, ret, mbind, M_bind, bind.
  destruct (urlopen w r) as [body|code body|message]; cbv beta iota.
  - destruct (Utf8.decode body); cbv beta iota; [done|].
    cbn [on_request_error is_Exception str_of_exn]. rewrite print_stderr.
    unfold emit, sys_exit, raise, mbind, M_bind, bind.
    by rewrite <- app_assoc.
  - cbn [on_request_error]. unfold bytes_decode, ret, raise, mbind, M_bind, bind.
    destruct (Utf8.decode body); [|done]. rewrite print_stderr.
    unfold emit, sys_exit, raise. by rewrite <- app_assoc.
  - cbn [on_request_error is_Exception str_of_exn]. rewrite print_stderr.
    unfold emit, sys_exit, raise, mbind, M_bind, bind.
    by rewrite <- app_assoc.
Qed.

Lemma parse_response_spec (w : world) (text : str) (t : list event) :
  parse_response w text t =
    match Json.decode (json_limits w) text with
    | inr parsed => (Ret parsed, t)
    | inl Json.Syntax =>
        (Raise (SystemExit 1),
         t ++ [Print Stderr [Text (lit "Invalid JSON response:"); Text text]])
    | inl Json.TooDeep => (Raise RecursionError, t)
    | inl Json.TooLong => (Raise ValueError, t)
    end.
Proof.
  unfold parse_response, try_except, json_loads, raise, ret.
  destruct (Json.decode (json_limits w) text) as [[]|parsed]; try reflexivity.
  by rewrite print_stderr.
Qed.

(** The test of line 110, as a boolean. *)
Lemma accepted_test (d : dict Json.value) :
  is_True (dict_get_default (lit "success") d) && dict_has (lit "receipt") d = true
  ↔ accepted (Json.VDict d).
Proof.
  unfold accepted, dict_get_default, dict_has. split.
  - intros [H1 H2]%andb_true_iff. exists d. split; [done|].
    apply bool_decide_eq_true in H2. split; [|done].
    destruct (dict_get (lit "success") d) as [[| [|] | | | | |]|]; done.
  - intros (d' & [= <-] & Hs & Hr). rewrite Hs; simpl.
    by apply bool_decide_eq_true.
Qed.

Lemma accepted_dict (parsed : Json.value) :
  accepted parsed → ∃ d, parsed = Json.VDict d.
Proof. intros (d & -> & _). eauto. Qed.

Lemma report_spec (w : world) (parsed : Json.value) (t : list event) :
  report w parsed t =
    match parsed with
    | Json.VDict d =>
        if is_True (dict_get_default (lit "success") d) && dict_has (lit "receipt") d
        then if writable (stdout_errors w) (Value (dict_get_default (lit "receipt") d))
             then (Ret tt, t ++ [receipt_line (dict_get_default (lit "receipt") d)])
             else (Raise UnicodeEncodeError, t ++ [cut_receipt_line])
        else (Raise (SystemExit 1), t ++ [unexpected_line parsed])
    | _ => (Raise AttributeError, t)
    end.
Proof.
  unfold report. destruct parsed; try reflexivity.
  destruct (_ && _).
  - rewrite print_receipt. by destruct (writable _ _).
  - by rewrite print_stderr.
Qed.

(** *** Whole runs *)

Lemma run_missing (w : world) :
  missing w ≠ [] → run w = {| trace := [missing_message w]; exit_status := 1 |}.
Proof.
  intros Hm. unfold run, main, mbind, M_bind, bind.
  by rewrite (prepare_missing w Hm).
Qed.

Lemma run_unprepared (w : world) (e : exn) (t : list event) :
  prepare w [] = (Raise e, t) →
  run w = match e with
          | SystemExit code => {| trace := t; exit_status := code |}
          | _ => {| trace := t ++ [Traceback e]; exit_status := 1 |}
          end.
Proof.
  intros Hp. unfold run, main, mbind, M_bind, bind. rewrite Hp.
  destruct e; reflexivity.
Qed.

(** All runs that reach the transport, by the reply and what the body
    holds. *)
Lemma run_prepared (w : world) (r : Request) :
  prepare w [] = (Ret r, [Clock]) →
  run w =
    match urlopen w r with
    | Response body =>
        match Utf8.decode body with
        | None =>
            {| trace := [Clock; Sent r;
                         Print Stderr [Text (lit "Request failed:");
                                       Message UnicodeDecodeError]];
               exit_status := 1 |}
        | Some text =>
            match Json.decode (json_limits w) text with
            | inl Json.Syntax =>
                {| trace := [Clock; Sent r;
                             Print Stderr [Text (lit "Invalid JSON response:");
                                           Text text]];
                   exit_status := 1 |}
            | inl Json.TooDeep =>
                {| trace := [Clock; Sent r; Traceback RecursionError];
                   exit_status := 1 |}
            | inl Json.TooLong =>
                {| trace := [Clock; Sent r; Traceback ValueError];
                   exit_status := 1 |}
            | inr (Json.VDict d) =>
                if is_True (dict_get_default (lit "success") d)
                   && dict_has (lit "receipt") d
                then if writable (stdout_errors w)
                          (Value (dict_get_default (lit "receipt") d))
                     then {| trace := [Clock; Sent r;
                                       receipt_line (dict_get_default (lit "receipt") d)];
                             exit_status := 0 |}
                     else {| trace := [Clock; Sent r; cut_receipt_line;
                                       Traceback UnicodeEncodeError];
                             exit_status := 1 |}
                else {| trace := [Clock; Sent r; unexpected_line (Json.VDict d)];
                        exit_status := 1 |}
            | inr _ =>
                {| trace := [Clock; Sent r; Traceback AttributeError];
                   exit_status := 1 |}
            end
        end
    | ErrorStatus code body =>
        match Utf8.decode body with
        | Some text =>
            {| trace := [Clock; Sent r; http_error_line code text];
               exit_status := 1 |}
        | None =>
            {| trace := [Clock; Sent r; Traceback UnicodeDecodeError];
               exit_status := 1 |}
        end
    | Failure message =>
        {| trace := [Clock; Sent r;
                     Print Stderr [Text (lit "Request failed:"); Text message]];
           exit_status := 1 |}
    end.
Proof.
  intros Hp. unfold run, main, mbind, M_bind, bind. rewrite Hp, exchange_spec.
  destruct (urlopen w r) as [body|code body|message]; [| |done].
  - destruct (Utf8.decode body) as [text|]; [|done].
    rewrite parse_response_spec.
    destruct (Json.decode (json_limits w) text) as [[]|parsed]; try done.
    rewrite report_spec. destruct parsed; try done.
    destruct (_ && _); [|done]. by destruct (writable _ _).
  - destruct (Utf8.decode body); done.
Qed.

(** The script calls the transport at most once, with the request that
    [prepare] built. *)
Lemma requests_run (w : world) :
  requests (run w) =
    match prepare w [] with
    | (Ret r, _) => [r]
    | (Raise _, _) => []
    end.
Proof.
  destruct (decide (missing w = [])) as [Hm|Hm].
  - apply missing_nil in Hm as [[s Hs] [u Hu]].
    pose proof (prepare_present w s u Hs Hu) as Hp.
    destruct (Utf8.encode s) as [key|].
    + destruct (Utf8.encode (canonical_json _)) as [body|].
      * rewrite Hp, (run_prepared w _ Hp).
        destruct (urlopen w _) as [b|code b|message]; [| |done].
        -- destruct (Utf8.decode b) as [text|]; [|done].
           destruct (Json.decode _ text) as [[]|[]]; try done.
           destruct (_ && _); [|done]. by destruct (writable _ _).
        -- destruct (Utf8.decode b); done.
      * by rewrite Hp, (run_unprepared w _ _ Hp).
    + by rewrite Hp, (run_unprepared w _ _ Hp).
  - by rewrite (prepare_missing w Hm), (run_missing w Hm).
Qed.

Lemma prepare_trace (w : world) (r : Request) (t : list event) :
  prepare w [] = (Ret r, t) → t = [Clock].
Proof.
  intros Hp. destruct (decide (missing w = [])) as [Hm|Hm].
  - apply missing_nil in Hm as [[s Hs] [u Hu]].
    rewrite (prepare_present w s u Hs Hu) in Hp.
    destruct (Utf8.encode s); [|done].
    destruct (Utf8.encode (canonical_json _)); [|done]. congruence.
  - rewrite (prepare_missing w Hm) in Hp. done.
Qed.

Lemma sent_prepared (w : world) (r : Request) :
  r ∈ requests (run w) → prepare w [] = (Ret r, [Clock]).
Proof.
  rewrite requests_run. destruct (prepare w []) as [[r'|e] t] eqn:Hp.
  - intros Hr%list_elem_of_singleton. subst r'.
    by rewrite (prepare_trace w r t Hp).
  - by intros ?%elem_of_nil.
Qed.

(** A request was sent only if both variables are set and both texts
    encode; the request is then the signed canonical body. *)
Lemma sent_inv (w : world) (r : Request) :
  r ∈ requests (run w) →
  ∃ s u key body,
    environ w !! SECRET_NAME = Some s ∧ environ w !! RUN_URL_NAME = Some u
    ∧ Utf8.encode s = Some key
    ∧ Utf8.encode (canonical_json (payload (timestamp (now w)) u)) = Some body
    ∧ r = post key body.
Proof.
  intros Hp%sent_prepared.
  destruct (decide (missing w = [])) as [Hm|Hm].
  - apply missing_nil in Hm as [[s Hs] [u Hu]].
    rewrite (prepare_present w s u Hs Hu) in Hp.
    destruct (Utf8.encode s) as [key|] eqn:Hk; [|done].
    destruct (Utf8.encode (canonical_json _)) as [body|] eqn:Hb; [|done].
    exists s, u, key, body. repeat split; try done. congruence.
  - rewrite (prepare_missing w Hm) in Hp. done.
Qed.

(** With both variables set to texts that encode, the script reaches the
    transport, whatever the clock says. *)
Lemma reaches_transport (w : world) (s u : str) :
  environ w !! SECRET_NAME = Some s → environ w !! RUN_URL_NAME = Some u →
  encodable s → encodable u →
  ∃ key body,
    Utf8.encode s = Some key
    ∧ Utf8.encode (canonical_json (payload (timestamp (now w)) u)) = Some body
    ∧ requests (run w) = [post key body].
Proof.
  intros Hs Hu [key Hk] Hue.
  destruct (payload_encodable (now w) u Hue) as [body Hb].
  exists key, body. repeat split; try done.
  by rewrite requests_run, (prepare_present w s u Hs Hu), Hk, Hb.
Qed.

(** A secret that does not encode (it holds a surrogate) ends the run at
    line 31, before the clock is read. *)
Lemma unencodable_secret_raises (w : world) (s u : str) :
  environ w !! SECRET_NAME = Some s → environ w !! RUN_URL_NAME = Some u →
  Utf8.encode s = None →
  run w = {| trace := [Traceback UnicodeEncodeError]; exit_status := 1 |}.
Proof.
  intros Hs Hu Hk. pose proof (prepare_present w s u Hs Hu) as Hp.
  rewrite Hk in Hp. by rewrite (run_unprepared w _ _ Hp).
Qed.

(** ** The request *)

Lemma header_signature (key body : bytes) :
  dict_get (lit "X-Signature-256") (headers (post key body))
  = Some (signature_header key body).
Proof. reflexivity. Qed.

Lemma sample_request_sent (a : reply) :
  requests (run (mocked sample_environ a)) = [sample_request].
Proof.
  rewrite requests_run.
  rewrite (prepare_present _ (lit "s3cr3t")
             (lit "https://github.com/jtx007/b12-application/actions/runs/1"))
    by (vm_compute; reflexivity).
  vm_compute. reflexivity.
Qed.

(** C1. The bytes that are signed are the bytes that are sent.  Whenever
    the script calls the transport with a request [r], there is one byte
    sequence [message], the UTF-8 encoding of the canonical JSON text of
    the payload, such that the body of [r] is [message] and the
    [X-Signature-256] header of [r] is the signature computed over
    [message] with the encoded secret as key: nothing is serialized anew
    between signing and sending. *)
Theorem signed_bytes_are_sent_bytes (w : world) (r : Request) :
  r ∈ requests (run w) →
  ∃ secret key action_run_link message,
    environ w !! SECRET_NAME = Some secret
    ∧ Utf8.encode secret = Some key
    ∧ environ w !! RUN_URL_NAME = Some action_run_link
    ∧ Utf8.encode (canonical_json (payload (timestamp (now w)) action_run_link))
      = Some message
    ∧ dict_get (lit "X-Signature-256") (headers r)
      = Some (lit "sha256=" ++ Hmac.hexdigest key message)
    ∧ data r = message.
Proof.
  intros (s & u & key & body & Hs & Hu & Hk & Hb & ->)%sent_inv.
  exists s, key, u, body. repeat split; done.
Qed.

Lemma signed_bytes_are_sent_bytes_witness :
  sample_request ∈ requests (run (mocked sample_environ (Response receipt_body)))
  ∧ ∃ secret key action_run_link message,
      sample_environ !! SECRET_NAME = Some secret
      ∧ Utf8.encode secret = Some key
      ∧ sample_environ !! RUN_URL_NAME = Some action_run_link
      ∧ Utf8.encode (canonical_json (payload (timestamp sample_now) action_run_link))
        = Some message
      ∧ dict_get (lit "X-Signature-256") (headers sample_request)
        = Some (lit "sha256=" ++ Hmac.hexdigest key message)
      ∧ data sample_request = message.
Proof.
  assert (H : sample_request
              ∈ requests (run (mocked sample_environ (Response receipt_body)))).
  { rewrite sample_request_sent. apply list_elem_of_here. }
  split; [exact H|].
  exact (signed_bytes_are_sent_bytes _ _ H).
Defined.

(** C7. For every secret and payload with which the script reaches the
    transport, the [X-Signature-256] header of the request is the text
    [sha256=] followed by exactly 64 lowercase hexadecimal characters:
    the hexadecimal rendering of the HMAC-SHA256 digest of the canonical
    bytes (the body of the request), keyed by the UTF-8 encoding of the
    secret. *)
Theorem signature_header_format (w : world) (r : Request) :
  r ∈ requests (run w) →
  ∃ secret key action_run_link hex,
    environ w !! SECRET_NAME = Some secret
    ∧ Utf8.encode secret = Some key
    ∧ environ w !! RUN_URL_NAME = Some action_run_link
    ∧ Utf8.encode (canonical_json (payload (timestamp (now w)) action_run_link))
      = Some (data r)
    ∧ dict_get (lit "X-Signature-256") (headers r) = Some (lit "sha256=" ++ hex)
    ∧ length hex = 64%nat
    ∧ Forall (λ c, is_lower_hex c = true) hex
    ∧ hex = concat (map hex_byte (Hmac.digest key (data r))).
Proof.
  intros (s & u & key & body & Hs & Hu & Hk & Hb & ->)%sent_inv.
  exists s, key, u, (Hmac.hexdigest key body).
  repeat split; auto using hexdigest_length, hexdigest_lower.
Qed.

Lemma signature_header_format_witness :
  sample_request ∈ requests (run (mocked sample_environ (Response receipt_body)))
  ∧ ∃ secret key action_run_link hex,
      sample_environ !! SECRET_NAME = Some secret
      ∧ Utf8.encode secret = Some key
      ∧ sample_environ !! RUN_URL_NAME = Some action_run_link
      ∧ Utf8.encode (canonical_json (payload (timestamp sample_now) action_run_link))
        = Some (data sample_request)
      ∧ dict_get (lit "X-Signature-256") (headers sample_request)
        = Some (lit "sha256=" ++ hex)
      ∧ length hex = 64%nat
      ∧ Forall (λ c, is_lower_hex c = true) hex
      ∧ hex = concat (map hex_byte (Hmac.digest key (data sample_request))).
Proof.
  assert (H : sample_request
              ∈ requests (run (mocked sample_environ (Response receipt_body)))).
  { rewrite sample_request_sent. apply list_elem_of_here. }
  split; [exact H|].
  exact (signature_header_format _ _ H).
Defined.

(** The signature of the sample request, as [hmac] computes it. *)
Example sample_signature :
  dict_get (lit "X-Signature-256") (headers sample_request)
  = Some (lit "sha256=56fb14de0eaf7700197cd9b63109b3896655d0094da6dff40f3ecbc9e365a2b7").
Proof. vm_compute. reflexivity. Qed.

(** ** The interpretation of the response *)

(** What [json.loads] returns is the value of the text. *)
Lemma scan_finished (s : Json.lex_state) (text : str) (toks : list Json.token) :
  Json.scan s text = (toks, Json.Finished) → Json.lex s text = Some toks.
Proof.
  revert s toks. induction text as [|c text IH]; intros s toks;
    cbn [Json.scan Json.lex].
  - destruct (Json.lex_end s) as [t|]; [by intros [= ->]|].
    intros [= _ H]. by destruct s.
  - destruct (Json.lex_step s c) as [[s' tk]|]; [|intros [= _ H]; by destruct s].
    destruct (Json.scan s' text) as [rest st] eqn:Hs. intros [= <- ->].
    cbn [mbind option_bind]. by rewrite (IH s' rest Hs).
Qed.

Lemma decode_tokens_parse (lim : Json.limits) (toks : list Json.token)
    (st : Json.stop) (v : Json.value) :
  ∀ m stack,
    Json.decode_tokens lim m stack toks st = inr v →
    st = Json.Finished ∧ Json.parse m stack toks = Some v.
Proof.
  induction toks as [|t toks IH]; intros m stack;
    cbn [Json.decode_tokens Json.parse].
  - destruct st, m; try done. by intros [= ->].
  - destruct (Json.limit_at lim m stack t); [done|].
    destruct (Json.parse_step m stack t) as [[m' stack']|]; [|done].
    cbn [mbind option_bind]. apply IH.
Qed.

Lemma decode_loads (lim : Json.limits) (text : str) (v : Json.value) :
  Json.decode lim text = inr v → Json.loads text = Some v.
Proof.
  unfold Json.decode, Json.loads.
  destruct (Json.scan Json.LIdle text) as [toks st] eqn:Hs.
  intros [-> Hp]%decode_tokens_parse.
  by rewrite (scan_finished _ _ _ Hs).
Qed.

(** A text on which [json.loads] raises [JSONDecodeError] is not JSON. *)
Lemma lex_scan (s : Json.lex_state) (text : str) (toks : list Json.token) :
  Json.lex s text = Some toks → Json.scan s text = (toks, Json.Finished).
Proof.
  revert s toks. induction text as [|c text IH]; intros s toks;
    cbn [Json.scan Json.lex].
  - by intros ->.
  - destruct (Json.lex_step s c) as [[s' tk]|]; [|done]. cbn [mbind option_bind].
    destruct (Json.lex s' text) as [rest|] eqn:Hl; [|done]. intros [= <-].
    by rewrite (IH s' rest Hl).
Qed.

Lemma limit_at_error (lim : Json.limits) (m : Json.mode) (stack : list Json.frame)
    (t : Json.token) (e : Json.error) :
  Json.limit_at lim m stack t = Some e → e ≠ Json.Syntax.
Proof.
  unfold Json.limit_at. destruct (Json.starts_value m t); [|done].
  destruct t as [| | | | | |[]]; repeat case_match; by intros [= <-].
Qed.

Lemma parse_decode_tokens (lim : Json.limits) (toks : list Json.token)
    (v : Json.value) :
  ∀ m stack,
    Json.parse m stack toks = Some v →
    Json.decode_tokens lim m stack toks Json.Finished ≠ inl Json.Syntax.
Proof.
  induction toks as [|t toks IH]; intros m stack;
    cbn [Json.parse Json.decode_tokens].
  - by destruct m.
  - destruct (Json.parse_step m stack t) as [[m' stack']|]; [|done].
    cbn [mbind option_bind]. intros Hp.
    destruct (Json.limit_at lim m stack t) as [e|] eqn:Hl.
    + intros [= ->]. by apply limit_at_error in Hl.
    + by apply IH.
Qed.

Lemma syntax_error_not_json (lim : Json.limits) (text : str) :
  Json.decode lim text = inl Json.Syntax → Json.loads text = None.
Proof.
  unfold Json.decode, Json.loads. intros Hd.
  destruct (Json.lex Json.LIdle text) as [toks|] eqn:Hl; [|done].
  cbn [mbind option_bind]. rewrite (lex_scan _ _ _ Hl) in Hd.
  destruct (Json.parse Json.PValue [] toks) as [v|] eqn:Hp; [|done].
  by destruct (parse_decode_tokens lim toks v _ _ Hp).
Qed.

(** The run after a 2xx response whose body parsed. *)
Lemma run_parsed (w : world) (parsed : Json.value) :
  parsed_response w parsed →
  ∃ r,
    run w =
      match parsed with
      | Json.VDict d =>
          if is_True (dict_get_default (lit "success") d)
             && dict_has (lit "receipt") d
          then if writable (stdout_errors w)
                    (Value (dict_get_default (lit "receipt") d))
               then {| trace := [Clock; Sent r;
                                 receipt_line (dict_get_default (lit "receipt") d)];
                       exit_status := 0 |}
               else {| trace := [Clock; Sent r; cut_receipt_line;
                                 Traceback UnicodeEncodeError];
                       exit_status := 1 |}
          else {| trace := [Clock; Sent r; unexpected_line parsed];
                  exit_status := 1 |}
      | _ => {| trace := [Clock; Sent r; Traceback AttributeError];
                exit_status := 1 |}
      end.
Proof.
  intros (r & body & text & [Hr Hu] & Hd & Hl). exists r.
  rewrite (run_prepared w r (sent_prepared w r Hr)), Hu, Hd, Hl.
  by destruct parsed.
Qed.

Lemma sample_parsed_response (body : bytes) (text : str) (parsed : Json.value) :
  Utf8.decode body = Some text → Json.decode cpython_limits text = inr parsed →
  parsed_response (responding body) parsed.
Proof.
  intros Hd Hl. exists sample_request, body, text. repeat split; try done.
  unfold responding. rewrite sample_request_sent. apply list_elem_of_here.
Qed.

(** A dict that fails the test of line 110 is printed on stderr, and the
    status is 1. *)
Lemma rejected_dict_reported (w : world) (d : dict Json.value) :
  parsed_response w (Json.VDict d) → ¬ accepted (Json.VDict d) →
  stdout (run w) = [] ∧ stderr (run w) = [unexpected_line (Json.VDict d)]
  ∧ exit_status (run w) = 1.
Proof.
  intros [r Hrun]%run_parsed Hn. rewrite Hrun.
  destruct (_ && _) eqn:Hc; [|done].
  destruct Hn. by apply accepted_test.
Qed.

(** On a parsed value that is not a dict the call [parsed.get] raises:
    the interpreter prints a traceback, nothing else reaches stderr, and
    the status is 1. *)
Lemma non_dict_response_raises (w : world) (parsed : Json.value) :
  parsed_response w parsed → (∀ d, parsed ≠ Json.VDict d) →
  stdout (run w) = [] ∧ stderr (run w) = [Traceback AttributeError]
  ∧ exit_status (run w) = 1.
Proof.
  intros [r Hrun]%run_parsed Hn. rewrite Hrun.
  destruct parsed; try done. by destruct (Hn d).
Qed.

(** The body of C2 parses under every limit: one container, no
    integer. *)
Lemma receipt_body_parses :
  Utf8.decode receipt_body = Some receipt_body
  ∧ ∀ lim, Json.decode lim receipt_body = inr receipt_parsed.
Proof. split; [|intros lim]; vm_compute; reflexivity. Qed.

(** Every stream writes the receipt [R123]. *)
Lemma receipt_R123_writable (h : handler) :
  writable h (Value (Json.VStr (lit "R123"))) = true.
Proof. destruct h; vm_compute; reflexivity. Qed.

(** C2. If the transport returns HTTP 200 with the body
    [{"success": true, "receipt": "R123"}], the program prints the line
    [Submission receipt: R123] on standard output, writes nothing to the
    error stream, and exits with status 0. *)
Theorem receipt_printed (w : world) (r : Request) :
  answered w r (Response receipt_body) →
  trace (run w) = [Clock; Sent r; receipt_line (Json.VStr (lit "R123"))]
  ∧ stdout (run w)
    = [Print Stdout [Text (lit "Submission receipt:"); Text (lit "R123")]]
  ∧ line [Text (lit "Submission receipt:"); Text (lit "R123")]
    = Some (lit "Submission receipt: R123")
  ∧ stderr (run w) = []
  ∧ exit_status (run w) = 0.
Proof.
  intros [Hr Hu]. destruct receipt_body_parses as [Hd Hl].
  rewrite (run_prepared w r (sent_prepared w r Hr)), Hu, Hd, Hl.
  unfold receipt_parsed.
  assert (Ht : is_True (dict_get_default (lit "success")
                          [(lit "success", Json.VBool true);
                           (lit "receipt", Json.VStr (lit "R123"))])
               && dict_has (lit "receipt")
                    [(lit "success", Json.VBool true);
                     (lit "receipt", Json.VStr (lit "R123"))] = true)
    by (vm_compute; reflexivity).
  assert (Hv : dict_get_default (lit "receipt")
                 [(lit "success", Json.VBool true);
                  (lit "receipt", Json.VStr (lit "R123"))]
               = Json.VStr (lit "R123")) by (vm_compute; reflexivity).
  rewrite Ht, Hv, receipt_R123_writable.
  repeat split.
Qed.

Lemma receipt_printed_witness :
  answered (responding receipt_body) sample_request (Response receipt_body)
  ∧ trace (run (responding receipt_body))
    = [Clock; Sent sample_request; receipt_line (Json.VStr (lit "R123"))]
  ∧ stdout (run (responding receipt_body))
    = [Print Stdout [Text (lit "Submission receipt:"); Text (lit "R123")]]
  ∧ line [Text (lit "Submission receipt:"); Text (lit "R123")]
    = Some (lit "Submission receipt: R123")
  ∧ stderr (run (responding receipt_body)) = []
  ∧ exit_status (run (responding receipt_body)) = 0.
Proof.
  assert (H : answered (responding receipt_body) sample_request
                (Response receipt_body)).
  { split; [|reflexivity].
    unfold responding. rewrite sample_request_sent. apply list_elem_of_here. }
  split; [exact H|].
  exact (receipt_printed _ _ H).
Defined.





(** C4 fails on the script.  The body [[]] is valid JSON, it parses to an
    empty list, and the success condition does not hold; but the script
    does not print the parsed structure: [parsed.get] raises
    [AttributeError], the interpreter prints a traceback, and the status
    is 1. *)
Theorem list_response_raises :
  parsed_response (responding (lit "[]")) (Json.VList [])
  ∧ ¬ truthy_success_and_receipt (Json.VList [])
  ∧ trace (run (responding (lit "[]")))
    = [Clock; Sent sample_request; Traceback AttributeError]
  ∧ stderr (run (responding (lit "[]"))) = [Traceback AttributeError]
  ∧ (∀ v, unexpected_line v ∉ trace (run (responding (lit "[]"))))
  ∧ exit_status (run (responding (lit "[]"))) = 1.
Proof.
  assert (Hp : parsed_response (responding (lit "[]")) (Json.VList [])).
  { apply (sample_parsed_response _ (lit "[]")); vm_compute; reflexivity. }
  destruct (run_parsed _ _ Hp) as [r Hrun].
  assert (r = sample_request) as ->.
  { assert (Hin : r ∈ requests (run (responding (lit "[]"))))
      by (rewrite Hrun; apply list_elem_of_here).
    unfold responding in Hin. rewrite sample_request_sent in Hin.
    by apply list_elem_of_singleton in Hin. }
  rewrite Hrun.
  split; [exact Hp|]. split; [by intros (d & v & ? & _)|].
  split; [reflexivity|]. split; [reflexivity|]. split; [|reflexivity].
  intros v Hv. cbn [trace] in Hv. unfold unexpected_line in Hv.
  rewrite !elem_of_cons, elem_of_nil in Hv.
  destruct Hv as [Hv|[Hv|[Hv|[]]]]; discriminate Hv.
Qed.

(** ** The validation of the environment *)

(** C5. If a required environment variable is absent, the run consists of
    one message on the error stream, which lists the names of [missing]:
    every absent required name (both, in the order of
    [required_env_vars], when both are absent); the status is 1 (not
    zero); and this happens before any payload is built: the clock is not
    read and no request is made. *)
Theorem missing_variables_reported (w : world) :
  (∃ v, v ∈ required_env_vars ∧ environ w !! v = None) →
  trace (run w)
  = [Print Stderr [Text (lit "Missing required environment variables: "
                         ++ join (lit ", ") (missing w))]]
  ∧ (∀ v, v ∈ missing w ↔ v ∈ required_env_vars ∧ environ w !! v = None)
  ∧ (environ w !! SECRET_NAME = None → environ w !! RUN_URL_NAME = None →
     missing w = [lit "B12_SIGNING_SECRET"; lit "GITHUB_RUN_URL"]
     ∧ line [Text (lit "Missing required environment variables: "
                   ++ join (lit ", ") (missing w))]
       = Some (lit "Missing required environment variables: B12_SIGNING_SECRET, GITHUB_RUN_URL"))
  ∧ exit_status (run w) = 1
  ∧ exit_status (run w) ≠ 0
  ∧ (Clock ∉ trace (run w))
  ∧ requests (run w) = [].
Proof.
  intros (v & Hv & Hnone).
  assert (Hm : missing w ≠ []).
  { intros Hnil. assert (Hin : v ∈ missing w) by by apply missing_spec.
    rewrite Hnil in Hin. by apply elem_of_nil in Hin. }
  rewrite (run_missing w Hm). unfold missing_message.
  split; [reflexivity|]. split; [intros v'; apply missing_spec|].
  split.
  { intros H1 H2. rewrite missing_cases, H1, H2.
    split; [reflexivity | vm_compute; reflexivity]. }
  split; [reflexivity|]. split; [discriminate|]. split; [|reflexivity].
  cbn [trace]. intros Hc%list_elem_of_singleton. discriminate Hc.
Qed.

Lemma missing_variables_reported_witness :
  (∃ v, v ∈ required_env_vars ∧ (∅ : gmap str str) !! v = None)
  ∧ trace (run (mocked ∅ (Response [])))
    = [Print Stderr [Text (lit "Missing required environment variables: "
                           ++ join (lit ", ") (missing (mocked ∅ (Response []))))]]
  ∧ exit_status (run (mocked ∅ (Response []))) = 1
  ∧ requests (run (mocked ∅ (Response []))) = [].
Proof.
  assert (H : ∃ v, v ∈ required_env_vars
                   ∧ environ (mocked ∅ (Response [])) !! v = None).
  { exists SECRET_NAME. split; [apply list_elem_of_here | reflexivity]. }
  split; [exact H|].
  destruct (missing_variables_reported _ H) as (Ht & _ & _ & Hs & _ & _ & Hr).
  repeat split; assumption.
Defined.

(** ** Determinism of the canonical form *)

Lemma canonical_json_permutation (d1 d2 : dict str) :
  NoDup d1.*1 → d1 ≡ₚ d2 → canonical_json d1 = canonical_json d2.
Proof.
  intros Hnd Hp. unfold canonical_json, Json.dumps.
  by rewrite (sorted_items_permutation d1 d2 Hnd Hp).
Qed.

(** C6. Canonical serialization is a function of the logical record.  Two
    constructions of the same record, that is two dicts with the same
    items whatever the order in which they were filled, have the same
    canonical text.  Hence two runs with equal field values (timestamp
    and run URL; the other fields are constants) send byte-identical
    bodies, whatever else differs around them, and with the same key
    they send equal signature headers. *)
Theorem canonical_json_deterministic :
  (∀ d1 d2 : dict str,
     NoDup d1.*1 → d1 ≡ₚ d2 → canonical_json d1 = canonical_json d2)
  ∧ (∀ (w1 w2 : world) (r1 r2 : Request),
       timestamp (now w1) = timestamp (now w2) →
       environ w1 !! RUN_URL_NAME = environ w2 !! RUN_URL_NAME →
       r1 ∈ requests (run w1) → r2 ∈ requests (run w2) →
       data r1 = data r2
       ∧ (environ w1 !! SECRET_NAME = environ w2 !! SECRET_NAME →
          dict_get (lit "X-Signature-256") (headers r1)
          = dict_get (lit "X-Signature-256") (headers r2))).
Proof.
  split; [exact canonical_json_permutation|].
  intros w1 w2 r1 r2 Ht Hu
    (s1 & u1 & k1 & b1 & Hs1 & Hu1 & Hk1 & Hb1 & ->)%sent_inv
    (s2 & u2 & k2 & b2 & Hs2 & Hu2 & Hk2 & Hb2 & ->)%sent_inv.
  assert (u1 = u2) as -> by congruence.
  assert (b1 = b2) as -> by congruence.
  split; [reflexivity|].
  intros Hs. assert (s1 = s2) as -> by congruence.
  assert (k1 = k2) as -> by congruence. reflexivity.
Qed.

Lemma canonical_json_deterministic_witness :
  (NoDup (payload (lit "t") (lit "u")).*1
   ∧ payload (lit "t") (lit "u") ≡ₚ reverse (payload (lit "t") (lit "u")))
  ∧ canonical_json (payload (lit "t") (lit "u"))
    = canonical_json (reverse (payload (lit "t") (lit "u")))
  ∧ (sample_request ∈ requests (run (responding receipt_body))
     ∧ sample_request ∈ requests (run (mocked sample_environ (Failure []))))
  ∧ data sample_request = data sample_request.
Proof.
  assert (Hnd : NoDup (payload (lit "t") (lit "u")).*1).
  { apply (bool_decide_unpack _). vm_compute. reflexivity. }
  assert (Hp : payload (lit "t") (lit "u") ≡ₚ reverse (payload (lit "t") (lit "u"))).
  { symmetry. apply reverse_Permutation. }
  assert (H1 : sample_request ∈ requests (run (responding receipt_body))).
  { unfold responding. rewrite sample_request_sent. apply list_elem_of_here. }
  assert (H2 : sample_request ∈ requests (run (mocked sample_environ (Failure [])))).
  { rewrite sample_request_sent. apply list_elem_of_here. }
  split; [by split|].
  split; [exact (proj1 canonical_json_deterministic _ _ Hnd Hp)|].
  split; [by split|].
  exact (proj1 (proj2 canonical_json_deterministic _ _ _ _ eq_refl eq_refl H1 H2)).
Defined.

(** ** The failures of the transport *)

(** A final status outside 2xx whose body is UTF-8 text: the status code
    and the body are printed on stderr, the transport was called once,
    and the status of the process is 1. *)
Lemma http_error_reported (w : world) (r : Request) (code : Z) (body : bytes) (text : str) :
  answered w r (ErrorStatus code body) → Utf8.decode body = Some text →
  trace (run w) = [Clock; Sent r; http_error_line code text]
  ∧ stderr (run w)
    = [Print Stderr [Text (lit "HTTP error:"); Value (Json.VInt code); Text text]]
  ∧ requests (run w) = [r]
  ∧ exit_status (run w) = 1.
Proof.
  intros [Hr Hu] Hd.
  rewrite (run_prepared w r (sent_prepared w r Hr)), Hu, Hd. by repeat split.
Qed.

(** HTTP 500 with the body [server error]. *)
Example server_error_reported :
  stderr (run (mocked sample_environ (ErrorStatus 500 (lit "server error"))))
  = [http_error_line 500 (lit "server error")]
  ∧ line [Text (lit "HTTP error:"); Value (Json.VInt 500); Text (lit "server error")]
    = Some (lit "HTTP error: 500 server error")
  ∧ exit_status (run (mocked sample_environ (ErrorStatus 500 (lit "server error")))) = 1.
Proof.
  assert (H : answered (mocked sample_environ (ErrorStatus 500 (lit "server error")))
                sample_request (ErrorStatus 500 (lit "server error"))).
  { split; [|reflexivity]. rewrite sample_request_sent. apply list_elem_of_here. }
  destruct (http_error_reported _ _ _ _ (lit "server error") H) as (_ & He & _ & Hs).
  { vm_compute. reflexivity. }
  split; [exact He|]. split; [vm_compute; reflexivity | exact Hs].
Qed.

(** C8 fails on the script.  HTTP 500 with a body that is not UTF-8 text
    (the single byte 0xFF): the handler of [HTTPError] decodes the body
    before it prints, the decoding raises [UnicodeDecodeError] inside the
    handler, and the run ends with the interpreter's traceback; the line
    [HTTP error: ...] with the status code and the body is never
    printed.  The status is 1 and the transport was called once. *)
Theorem undecodable_error_body_raises :
  answered (mocked sample_environ (ErrorStatus 500 [0xFF])) sample_request
    (ErrorStatus 500 [0xFF])
  ∧ Utf8.decode [0xFF] = None
  ∧ trace (run (mocked sample_environ (ErrorStatus 500 [0xFF])))
    = [Clock; Sent sample_request; Traceback UnicodeDecodeError]
  ∧ (∀ code text,
       http_error_line code text
       ∉ trace (run (mocked sample_environ (ErrorStatus 500 [0xFF]))))
  ∧ exit_status (run (mocked sample_environ (ErrorStatus 500 [0xFF]))) = 1.
Proof.
  assert (H : answered (mocked sample_environ (ErrorStatus 500 [0xFF]))
                sample_request (ErrorStatus 500 [0xFF])).
  { split; [|reflexivity]. rewrite sample_request_sent. apply list_elem_of_here. }
  assert (Hd : Utf8.decode [0xFF] = None) by (vm_compute; reflexivity).
  split; [exact H|]. split; [exact Hd|].
  destruct H as [Hr Hu].
  rewrite (run_prepared _ _ (sent_prepared _ _ Hr)), Hu, Hd.
  split; [reflexivity|]. split; [|reflexivity].
  intros code text Hv. cbn [trace] in Hv. unfold http_error_line in Hv.
  rewrite !elem_of_cons, elem_of_nil in Hv.
  destruct Hv as [Hv|[Hv|[Hv|[]]]]; discriminate Hv.
Qed.

(** ** Presence, not contents *)

(** C9. Validation looks at the names only.  A required name is reported
    missing exactly when it is absent from the environment, so a variable
    set to the empty string passes.  The empty value is then used as it
    is: with an empty [B12_SIGNING_SECRET] the request is signed with the
    empty key, and with an empty [GITHUB_RUN_URL] the payload has an
    empty [action_run_link] and its canonical text is what is sent. *)
Theorem empty_values_pass_validation (w : world) (s u : str) :
  environ w !! SECRET_NAME = Some s → environ w !! RUN_URL_NAME = Some u →
  missing w = []
  ∧ (∀ v, v ∈ missing w ↔ v ∈ required_env_vars ∧ environ w !! v = None)
  ∧ (s = [] → encodable u →
     ∃ body,
       Utf8.encode (canonical_json (payload (timestamp (now w)) u)) = Some body
       ∧ requests (run w) = [post [] body]
       ∧ dict_get (lit "X-Signature-256") (headers (post [] body))
         = Some (lit "sha256=" ++ Hmac.hexdigest [] body))
  ∧ (u = [] → encodable s →
     ∃ key body,
       Utf8.encode s = Some key
       ∧ Utf8.encode (canonical_json (payload (timestamp (now w)) [])) = Some body
       ∧ requests (run w) = [post key body]
       ∧ dict_get (lit "action_run_link") (payload (timestamp (now w)) [])
         = Some []).
Proof.
  intros Hs Hu.
  split; [apply missing_nil; rewrite Hs, Hu; eauto|].
  split; [intros v; apply missing_spec|].
  split.
  - intros -> Hue.
    destruct (reaches_transport w [] u Hs Hu) as (key & body & Hk & Hb & Hr);
      [by eexists | done |].
    injection Hk as <-. by exists body.
  - intros -> Hse.
    destruct (reaches_transport w s [] Hs Hu) as (key & body & Hk & Hb & Hr);
      [done | by eexists |].
    by exists key, body.
Qed.

Lemma empty_values_pass_validation_witness :
  (empty_environ !! SECRET_NAME = Some [] ∧ empty_environ !! RUN_URL_NAME = Some [])
  ∧ missing (mocked empty_environ (Response receipt_body)) = []
  ∧ (∃ body,
       Utf8.encode (canonical_json (payload (timestamp sample_now) [])) = Some body
       ∧ requests (run (mocked empty_environ (Response receipt_body)))
         = [post [] body]
       ∧ dict_get (lit "X-Signature-256") (headers (post [] body))
         = Some (lit "sha256=" ++ Hmac.hexdigest [] body))
  ∧ dict_get (lit "action_run_link") (payload (timestamp sample_now) []) = Some [].
Proof.
  assert (Hs : environ (mocked empty_environ (Response receipt_body)) !! SECRET_NAME
               = Some []) by (vm_compute; reflexivity).
  assert (Hu : environ (mocked empty_environ (Response receipt_body)) !! RUN_URL_NAME
               = Some []) by (vm_compute; reflexivity).
  assert (He : encodable []) by (by eexists).
  destruct (empty_values_pass_validation _ _ _ Hs Hu) as (Hm & _ & Hsecret & Hurl).
  split; [by split|]. split; [exact Hm|].
  split; [exact (Hsecret eq_refl He)|].
  destruct (Hurl eq_refl He) as (key & body & _ & _ & _ & Hlink). exact Hlink.
Defined.

(** ** Exit statuses *)

(** Every run either takes the success path, with status 0, or ends with
    status 1. *)
Lemma exit_status_cases (w : world) :
  (success_path (run w) ∧ exit_status (run w) = 0) ∨ exit_status (run w) = 1.
Proof.
  destruct (prepare w []) as [[r|e] t] eqn:Hp.
  - rewrite (prepare_trace w r t Hp) in Hp. rewrite (run_prepared w r Hp).
    destruct (urlopen w r) as [body|code body|message]; [| |by right].
    + destruct (Utf8.decode body) as [text|]; [|by right].
      destruct (Json.decode _ text) as [[]|[]]; try by right.
      destruct (_ && _); [|by right].
      destruct (writable _ _); [left|by right]. split; [by eexists|done].
    + destruct (Utf8.decode body); by right.
  - right. destruct (decide (missing w = [])) as [Hm|Hm].
    + apply missing_nil in Hm as [[s Hs] [u Hu]].
      rewrite (run_unprepared w e t Hp).
      rewrite (prepare_present w s u Hs Hu) in Hp.
      destruct (Utf8.encode s); [|by simplify_eq].
      destruct (Utf8.encode (canonical_json _)); by simplify_eq.
    + by rewrite (run_missing w Hm).
Qed.

(** C10. Every failure branch (missing configuration, HTTP error, other
    transport failure, a response that is not UTF-8 text or not JSON, a
    parsed response of unexpected shape) ends the process with status
    exactly 1. *)
Theorem failure_exit_status_one (w : world) :
  failure_branch w → exit_status (run w) = 1.
Proof.
  intros [Hm | r code body [Hr Hu] | r message [Hr Hu] | r body [Hr Hu] Hd
         | r body text [Hr Hu] Hd Hl | parsed Hp Hn].
  - by rewrite (run_missing w Hm).
  - rewrite (run_prepared w r (sent_prepared w r Hr)), Hu.
    by destruct (Utf8.decode body).
  - by rewrite (run_prepared w r (sent_prepared w r Hr)), Hu.
  - by rewrite (run_prepared w r (sent_prepared w r Hr)), Hu, Hd.
  - rewrite (run_prepared w r (sent_prepared w r Hr)), Hu, Hd.
    destruct (Json.decode _ text) as [[]|v] eqn:He; try done.
    apply decode_loads in He. congruence.
  - destruct (run_parsed w parsed Hp) as [r ->].
    destruct parsed; try done.
    destruct (_ && _) eqn:Hc; [|done].
    destruct Hn. by apply accepted_test.
Qed.

Lemma failure_exit_status_one_witness :
  failure_branch (mocked ∅ (Response []))
  ∧ exit_status (run (mocked ∅ (Response []))) = 1.
Proof.
  assert (H : failure_branch (mocked ∅ (Response []))).
  { apply missing_configuration. rewrite missing_cases. discriminate. }
  split; [exact H|].
  exact (failure_exit_status_one _ H).
Defined.

(** * Further properties of the script *)

(** ** The branches after the request (lines 88 to 114) *)

Lemma sample_answered (a : reply) : answered (mocked sample_environ a) sample_request a.
Proof.
  split; [|reflexivity]. rewrite sample_request_sent. apply list_elem_of_here.
Qed.

Lemma line_two_texts (a b : str) : line [Text a; Text b] = Some (a ++ lit " " ++ b).
Proof. reflexivity. Qed.

(** X1 (lines 94 to 96).  When [urlopen] or [read] raises an exception
    other than [HTTPError], with message [message], the run prints
    [Request failed: message] on stderr, prints nothing on stdout, does
    not call the transport again, and ends with status 1. *)
Theorem transport_failure_reported (w : world) (r : Request) (message : str) :
  answered w r (Failure message) →
  trace (run w) = [Clock; Sent r; request_failed_line (Text message)]
  ∧ line [Text (lit "Request failed:"); Text message]
    = Some (lit "Request failed:" ++ lit " " ++ message)
  ∧ stdout (run w) = []
  ∧ requests (run w) = [r]
  ∧ exit_status (run w) = 1.
Proof.
  intros [Hr Hu].
  rewrite (run_prepared w r (sent_prepared w r Hr)), Hu. by repeat split.
Qed.

Lemma transport_failure_reported_witness :
  answered (mocked sample_environ (Failure (lit "timed out"))) sample_request
    (Failure (lit "timed out"))
  ∧ trace (run (mocked sample_environ (Failure (lit "timed out"))))
    = [Clock; Sent sample_request; request_failed_line (Text (lit "timed out"))]
  ∧ exit_status (run (mocked sample_environ (Failure (lit "timed out")))) = 1.
Proof.
  pose proof (sample_answered (Failure (lit "timed out"))) as H.
  split; [exact H|].
  destruct (transport_failure_reported _ _ _ H) as (Ht & _ & _ & _ & Hs).
  split; assumption.
Defined.

(** X2 (lines 88 to 96).  The body of a 2xx response is decoded inside
    the [try] block: a body that is not UTF-8 text is caught by
    [except Exception] and reported as [Request failed:] with the text of
    the decoding error; the body is never given to [json.loads], and the
    status is 1. *)
Theorem undecodable_response_reported (w : world) (r : Request) (body : bytes) :
  answered w r (Response body) → Utf8.decode body = None →
  trace (run w) = [Clock; Sent r; request_failed_line (Message UnicodeDecodeError)]
  ∧ stdout (run w) = []
  ∧ (∀ e, Traceback e ∉ trace (run w))
  ∧ exit_status (run w) = 1.
Proof.
  intros [Hr Hu] Hd.
  rewrite (run_prepared w r (sent_prepared w r Hr)), Hu, Hd.
  split; [reflexivity|]. split; [reflexivity|]. split; [|reflexivity].
  intros e He. cbn [trace] in He. unfold request_failed_line in He.
  rewrite !elem_of_cons, elem_of_nil in He.
  destruct He as [He|[He|[He|[]]]]; discriminate He.
Qed.

Lemma undecodable_response_reported_witness :
  (answered (responding [0xFF]) sample_request (Response [0xFF])
   ∧ Utf8.decode [0xFF] = None)
  ∧ trace (run (responding [0xFF]))
    = [Clock; Sent sample_request; request_failed_line (Message UnicodeDecodeError)]
  ∧ exit_status (run (responding [0xFF])) = 1.
Proof.
  pose proof (sample_answered (Response [0xFF])) as H.
  assert (Hd : Utf8.decode [0xFF] = None) by (vm_compute; reflexivity).
  split; [by split|].
  destruct (undecodable_response_reported _ _ _ H Hd) as (Ht & _ & _ & Hs).
  split; assumption.
Defined.

(** X3 (lines 101 to 105).  When [json.loads] raises [JSONDecodeError]
    on the text of a 2xx body (the text is then not JSON), the text is
    printed as it was received, after [Invalid JSON response:], on
    stderr; nothing is printed on stdout and the status is 1. *)
Theorem invalid_json_reported (w : world) (r : Request) (body : bytes) (text : str) :
  answered w r (Response body) → Utf8.decode body = Some text →
  Json.decode (json_limits w) text = inl Json.Syntax →
  Json.loads text = None
  ∧ trace (run w) = [Clock; Sent r; invalid_json_line text]
  ∧ line [Text (lit "Invalid JSON response:"); Text text]
    = Some (lit "Invalid JSON response:" ++ lit " " ++ text)
  ∧ stdout (run w) = []
  ∧ exit_status (run w) = 1.
Proof.
  intros [Hr Hu] Hd Hl. split; [exact (syntax_error_not_json _ _ Hl)|].
  rewrite (run_prepared w r (sent_prepared w r Hr)), Hu, Hd, Hl. by repeat split.
Qed.

Lemma invalid_json_reported_witness :
  (answered (responding (lit "not json")) sample_request (Response (lit "not json"))
   ∧ Utf8.decode (lit "not json") = Some (lit "not json")
   ∧ Json.decode cpython_limits (lit "not json") = inl Json.Syntax)
  ∧ trace (run (responding (lit "not json")))
    = [Clock; Sent sample_request; invalid_json_line (lit "not json")]
  ∧ line [Text (lit "Invalid JSON response:"); Text (lit "not json")]
    = Some (lit "Invalid JSON response: not json")
  ∧ exit_status (run (responding (lit "not json"))) = 1.
Proof.
  pose proof (sample_answered (Response (lit "not json"))) as H.
  assert (Hd : Utf8.decode (lit "not json") = Some (lit "not json"))
    by (vm_compute; reflexivity).
  assert (Hl : Json.decode cpython_limits (lit "not json") = inl Json.Syntax)
    by (vm_compute; reflexivity).
  split; [split; [exact H | split; [exact Hd | exact Hl]]|].
  destruct (invalid_json_reported (responding (lit "not json")) _ _ _ H Hd Hl)
    as (_ & Ht & Hline & _ & Hs).
  split; [exact Ht|]. split; [exact Hline | exact Hs].
Defined.

(** X4 (lines 91 to 93).  When [urlopen] raises [HTTPError] and the error
    body is UTF-8 text, the run prints [HTTP error:], the status code in
    decimal and the body text on one stderr line, prints nothing on
    stdout, makes no second request, and ends with status 1. *)
Theorem http_status_reported (w : world) (r : Request) (code : Z) (body : bytes)
    (text : str) :
  answered w r (ErrorStatus code body) → Utf8.decode body = Some text →
  trace (run w) = [Clock; Sent r; http_error_line code text]
  ∧ line [Text (lit "HTTP error:"); Value (Json.VInt code); Text text]
    = Some (lit "HTTP error:" ++ lit " " ++ str_of_int code ++ lit " " ++ text)
  ∧ stdout (run w) = []
  ∧ requests (run w) = [r]
  ∧ exit_status (run w) = 1.
Proof.
  intros [Hr Hu] Hd.
  rewrite (run_prepared w r (sent_prepared w r Hr)), Hu, Hd. by repeat split.
Qed.

Lemma http_status_reported_witness :
  (answered (mocked sample_environ (ErrorStatus 404 (lit "no such page")))
     sample_request (ErrorStatus 404 (lit "no such page"))
   ∧ Utf8.decode (lit "no such page") = Some (lit "no such page"))
  ∧ trace (run (mocked sample_environ (ErrorStatus 404 (lit "no such page"))))
    = [Clock; Sent sample_request; http_error_line 404 (lit "no such page")]
  ∧ line [Text (lit "HTTP error:"); Value (Json.VInt 404); Text (lit "no such page")]
    = Some (lit "HTTP error: 404 no such page")
  ∧ exit_status (run (mocked sample_environ (ErrorStatus 404 (lit "no such page")))) = 1.
Proof.
  pose proof (sample_answered (ErrorStatus 404 (lit "no such page"))) as H.
  assert (Hd : Utf8.decode (lit "no such page") = Some (lit "no such page"))
    by (vm_compute; reflexivity).
  split; [by split|].
  destruct (http_status_reported _ _ _ _ _ H Hd) as (Ht & Hline & _ & _ & Hs).
  split; [exact Ht|]. split; [exact Hline | exact Hs].
Defined.

(** X5 (lines 110 to 114).  A JSON object is rejected when its [success]
    is absent or is anything but the boolean [True], or when it has no
    [receipt] key; the whole parsed object is then printed after
    [Unexpected response:] on stderr, stdout stays empty, and the status
    is 1. *)
Theorem unexpected_object_reported (w : world) (d : dict Json.value) :
  parsed_response w (Json.VDict d) →
  dict_get (lit "success") d ≠ Some (Json.VBool true)
  ∨ dict_get (lit "receipt") d = None →
  stdout (run w) = []
  ∧ stderr (run w) = [unexpected_line (Json.VDict d)]
  ∧ exit_status (run w) = 1.
Proof.
  intros Hp Hn. apply (rejected_dict_reported w d Hp).
  intros (d' & [= <-] & Hs & [v Hr]). destruct Hn as [Hn|Hn]; congruence.
Qed.

Lemma unexpected_object_reported_witness :
  (parsed_response
     (responding (lit "{" ++ quoted "success" ++ lit ": false}"))
     (Json.VDict [(lit "success", Json.VBool false)])
   ∧ (dict_get (lit "success") [(lit "success", Json.VBool false)]
      ≠ Some (Json.VBool true)
      ∨ dict_get (lit "receipt") [(lit "success", Json.VBool false)] = None))
  ∧ stderr (run (responding (lit "{" ++ quoted "success" ++ lit ": false}")))
    = [unexpected_line (Json.VDict [(lit "success", Json.VBool false)])]
  ∧ exit_status (run (responding (lit "{" ++ quoted "success" ++ lit ": false}"))) = 1.
Proof.
  assert (Hp : parsed_response
                 (responding (lit "{" ++ quoted "success" ++ lit ": false}"))
                 (Json.VDict [(lit "success", Json.VBool false)])).
  { apply (sample_parsed_response _ (lit "{" ++ quoted "success" ++ lit ": false}"));
      vm_compute; reflexivity. }
  assert (Hn : dict_get (lit "success") [(lit "success", Json.VBool false)]
               ≠ Some (Json.VBool true)
               ∨ dict_get (lit "receipt") [(lit "success", Json.VBool false)] = None).
  { right. vm_compute. reflexivity. }
  split; [by split|].
  destruct (unexpected_object_reported _ _ Hp Hn) as (_ & He & Hs).
  split; assumption.
Defined.

(** X6 (line 110).  Whatever JSON value that is not an object the
    response holds (null, a boolean, a number, a string or a list), the
    call [parsed.get] raises [AttributeError]: the run ends with the
    interpreter's traceback as its only output and with status 1. *)
Theorem non_object_response_raises (w : world) (parsed : Json.value) :
  parsed_response w parsed → (∀ d, parsed ≠ Json.VDict d) →
  stdout (run w) = []
  ∧ stderr (run w) = [Traceback AttributeError]
  ∧ exit_status (run w) = 1.
Proof.
  intros [r Hrun]%run_parsed Hn. rewrite Hrun.
  destruct parsed; try done. by destruct (Hn d).
Qed.

Lemma non_object_response_raises_witness :
  (parsed_response (responding (lit "null")) Json.VNull
   ∧ ∀ d, Json.VNull ≠ Json.VDict d)
  ∧ stdout (run (responding (lit "null"))) = []
  ∧ stderr (run (responding (lit "null"))) = [Traceback AttributeError]
  ∧ exit_status (run (responding (lit "null"))) = 1.
Proof.
  assert (Hp : parsed_response (responding (lit "null")) Json.VNull).
  { apply (sample_parsed_response _ (lit "null")); vm_compute; reflexivity. }
  assert (Hn : ∀ d, Json.VNull ≠ Json.VDict d) by (intros d; discriminate).
  split; [by split|].
  exact (non_object_response_raises _ _ Hp Hn).
Defined.

(** ** The run as a whole *)

(** How a run ends when no request was built. *)
Lemma run_not_prepared (w : world) (e : exn) (t : list event) :
  prepare w [] = (Raise e, t) →
  run w = {| trace := [missing_message w]; exit_status := 1 |}
  ∨ (run w = {| trace := [Traceback UnicodeEncodeError]; exit_status := 1 |})
  ∨ (run w = {| trace := [Clock; Traceback UnicodeEncodeError]; exit_status := 1 |}).
Proof.
  intros Hp. destruct (decide (missing w = [])) as [Hm|Hm].
  - apply missing_nil in Hm as [[s Hs] [u Hu]].
    pose proof (prepare_present w s u Hs Hu) as Hp'.
    destruct (Utf8.encode s).
    + destruct (Utf8.encode (canonical_json _)); [congruence|].
      right; right. by rewrite (run_unprepared w _ _ Hp').
    + right; left. by rewrite (run_unprepared w _ _ Hp').
  - left. by apply run_missing.
Qed.

(** X7 (the whole script).  A run ends in one of three ways.  Either the
    receipt line is the only thing printed, on stdout, stderr is empty
    and the status is 0; or stdout is empty, exactly one thing reaches
    stderr (a diagnostic line or the interpreter's traceback) and the
    status is 1; or the [print] of line 111 raised on a receipt that
    stdout refuses: its first argument is on stdout, the traceback of
    [UnicodeEncodeError] on stderr, and the status is 1.  So the status
    is 0 only with a receipt on stdout, and every failure leaves a
    diagnostic on stderr. *)
Theorem run_outcomes (w : world) :
  (∃ receipt,
     stdout (run w) = [receipt_line receipt] ∧ stderr (run w) = []
     ∧ exit_status (run w) = 0)
  ∨ (∃ ev,
       stdout (run w) = [] ∧ stderr (run w) = [ev] ∧ exit_status (run w) = 1)
  ∨ (stdout (run w) = [cut_receipt_line]
     ∧ stderr (run w) = [Traceback UnicodeEncodeError]
     ∧ exit_status (run w) = 1).
Proof.
  destruct (prepare w []) as [[r|e] t] eqn:Hp.
  - rewrite (prepare_trace w r t Hp) in Hp. rewrite (run_prepared w r Hp).
    destruct (urlopen w r) as [body|code body|message];
      [| |right; left; by eexists].
    + destruct (Utf8.decode body) as [text|]; [|right; left; by eexists].
      destruct (Json.decode _ text) as [[]|[]]; try (right; left; by eexists).
      destruct (_ && _); [|right; left; by eexists].
      destruct (writable _ _); [left; by eexists | right; right; done].
    + destruct (Utf8.decode body); right; left; by eexists.
  - right; left.
    destruct (run_not_prepared w e t Hp) as [->|[->| ->]]; by eexists.
Qed.

(** X8 (lines 78 to 89).  The script calls the transport at most once.
    The request goes to the fixed endpoint with method POST, and has
    exactly the two headers [Content-Type: application/json] and
    [X-Signature-256]. *)
Theorem single_post_request (w : world) (r : Request) :
  r ∈ requests (run w) →
  requests (run w) = [r]
  ∧ url r = lit "https://b12.io/apply/submission"
  ∧ method r = lit "POST"
  ∧ (headers r).*1 = [lit "Content-Type"; lit "X-Signature-256"]
  ∧ dict_get (lit "Content-Type") (headers r) = Some (lit "application/json").
Proof.
  intros Hr. pose proof (sent_prepared w r Hr) as Hp.
  split; [by rewrite requests_run, Hp|].
  apply sent_inv in Hr as (s & u & key & body & _ & _ & _ & _ & ->).
  by repeat split.
Qed.

Lemma single_post_request_witness :
  sample_request ∈ requests (run (responding receipt_body))
  ∧ requests (run (responding receipt_body)) = [sample_request]
  ∧ url sample_request = lit "https://b12.io/apply/submission"
  ∧ method sample_request = lit "POST".
Proof.
  destruct (sample_answered (Response receipt_body)) as [H _].
  split; [exact H|].
  destruct (single_post_request _ _ H) as (Hreq & Hurl & Hm & _).
  split; [exact Hreq|]. split; [exact Hurl | exact Hm].
Defined.

(** Membership in a trace given by its events. *)
Ltac trace_members H :=
  cbn [trace] in H;
  unfold missing_message, request_failed_line, invalid_json_line, receipt_line,
    cut_receipt_line, unexpected_line, http_error_line in H;
  rewrite ?elem_of_cons, ?elem_of_nil in H;
  repeat match type of H with
         | _ ∨ _ => destruct H as [H|H]
         end;
  try discriminate H; try contradiction.



(** X10 (lines 31 and 67 to 86).  The secret reaches nothing but the
    signature.  Two runs of the same interpreter (the same handler of
    stdout, the same limits) that differ in the secret only, and to
    which the transport gives the same reply, send the same body to the
    same URL with the same method and content type, print the same
    things on stdout and on stderr, and end with the same status. *)
Theorem secret_only_signs (w1 w2 : world) (r1 r2 : Request) :
  now w1 = now w2 →
  environ w1 !! RUN_URL_NAME = environ w2 !! RUN_URL_NAME →
  stdout_errors w1 = stdout_errors w2 → json_limits w1 = json_limits w2 →
  r1 ∈ requests (run w1) → r2 ∈ requests (run w2) →
  urlopen w1 r1 = urlopen w2 r2 →
  data r1 = data r2
  ∧ url r1 = url r2
  ∧ method r1 = method r2
  ∧ dict_get (lit "Content-Type") (headers r1)
    = dict_get (lit "Content-Type") (headers r2)
  ∧ stdout (run w1) = stdout (run w2)
  ∧ stderr (run w1) = stderr (run w2)
  ∧ exit_status (run w1) = exit_status (run w2).
Proof.
  intros Hnow Henv Hout Hlim Hr1 Hr2 Hu.
  pose proof (run_prepared w1 r1 (sent_prepared w1 r1 Hr1)) as Hrun1.
  pose proof (run_prepared w2 r2 (sent_prepared w2 r2 Hr2)) as Hrun2.
  apply sent_inv in Hr1 as (s1 & u1 & k1 & b1 & _ & Hu1 & _ & Hb1 & ->).
  apply sent_inv in Hr2 as (s2 & u2 & k2 & b2 & _ & Hu2 & _ & Hb2 & ->).
  assert (u1 = u2) as -> by congruence.
  assert (b1 = b2) as -> by congruence.
  split; [reflexivity|]. split; [reflexivity|]. split; [reflexivity|].
  split; [reflexivity|].
  rewrite Hrun1, Hrun2, Hu, Hout, Hlim.
  destruct (urlopen w2 _) as [body|code body|message]; [| |by repeat split].
  - destruct (Utf8.decode body) as [text|]; [|by repeat split].
    destruct (Json.decode _ text) as [[]|[]]; try by repeat split.
    destruct (_ && _); [|by repeat split].
    destruct (writable _ _); by repeat split.
  - destruct (Utf8.decode body); by repeat split.
Qed.

Lemma other_request_sent (a : reply) :
  requests (run (mocked other_environ a)) = [post (lit "0ther") sample_body].
Proof.
  rewrite requests_run.
  rewrite (prepare_present _ (lit "0ther")
             (lit "https://github.com/jtx007/b12-application/actions/runs/1"))
    by (vm_compute; reflexivity).
  vm_compute. reflexivity.
Qed.

Lemma secret_only_signs_witness :
  (sample_request ∈ requests (run (responding receipt_body))
   ∧ post (lit "0ther") sample_body
     ∈ requests (run (mocked other_environ (Response receipt_body))))
  ∧ data sample_request = data (post (lit "0ther") sample_body)
  ∧ stdout (run (responding receipt_body))
    = stdout (run (mocked other_environ (Response receipt_body)))
  ∧ exit_status (run (responding receipt_body))
    = exit_status (run (mocked other_environ (Response receipt_body))).
Proof.
  destruct (sample_answered (Response receipt_body)) as [H1 _].
  assert (H2 : post (lit "0ther") sample_body
               ∈ requests (run (mocked other_environ (Response receipt_body)))).
  { rewrite other_request_sent. apply list_elem_of_here. }
  assert (He : environ (responding receipt_body) !! RUN_URL_NAME
               = environ (mocked other_environ (Response receipt_body)) !! RUN_URL_NAME)
    by (vm_compute; reflexivity).
  assert (Hu : urlopen (responding receipt_body) sample_request
               = urlopen (mocked other_environ (Response receipt_body))
                   (post (lit "0ther") sample_body)).
  { unfold responding, mocked. cbn [urlopen]. reflexivity. }
  split; [split; [exact H1 | exact H2]|].
  destruct (secret_only_signs (responding receipt_body)
              (mocked other_environ (Response receipt_body))
              sample_request (post (lit "0ther") sample_body)
              eq_refl He eq_refl eq_refl H1 H2 Hu)
    as (Hd & _ & _ & _ & Ho & _ & Hs).
  split; [exact Hd|]. split; [exact Ho | exact Hs].
Defined.

(** ** The timestamp (lines 36 to 40) *)

Lemma int_of_digits_app (a b : str) :
  int_of_digits (a ++ b)
  = fold_left (λ a c, 10 * a + (c - ord "0")) b (int_of_digits a).
Proof. unfold int_of_digits. apply fold_left_app. Qed.

Lemma int_of_digits_snoc (a : str) (c : Z) :
  int_of_digits (a ++ [c]) = 10 * int_of_digits a + (c - ord "0").
Proof. by rewrite int_of_digits_app. Qed.

(** With enough fuel, [digits_fuel] puts the decimal digits of [n], at
    least one, in front of [acc]. *)
Lemma digits_fuel_spec (fuel : nat) (n : Z) (acc : str) :
  0 ≤ n < 2 ^ Z.of_nat fuel → fuel ≠ O →
  ∃ ds,
    digits_fuel fuel n acc = ds ++ acc
    ∧ Forall (λ c, Json.is_digit c = true) ds
    ∧ int_of_digits ds = n
    ∧ (1 ≤ length ds)%nat
    ∧ ∀ k : nat, k ≠ O → n < 10 ^ Z.of_nat k → (length ds ≤ k)%nat.
Proof.
  revert n acc. induction fuel as [|fuel IH]; intros n acc Hn Hf; [done|].
  cbn [digits_fuel].
  assert (Hdigit : Json.is_digit (ord "0" + n mod 10) = true).
  { pose proof (Z.mod_pos_bound n 10 ltac:(lia)).
    unfold Json.is_digit, ord; simpl. apply andb_true_iff.
    split; apply Z.leb_le; lia. }
  destruct (Z.eqb_spec (n / 10) 0) as [Hq|Hq].
  - exists [ord "0" + n mod 10]. split; [done|]. split; [by repeat constructor|].
    split; [|split; [simpl; lia|]].
    + unfold int_of_digits; simpl. unfold ord; simpl.
      pose proof (Z.div_mod n 10 ltac:(lia)). lia.
    + intros k Hk _. simpl. lia.
  - assert (Hq' : 1 ≤ n / 10) by (pose proof (Z.div_pos n 10); lia).
    assert (Hlt : n / 10 < 2 ^ Z.of_nat fuel).
    { apply Z.div_lt_upper_bound; [lia|].
      rewrite Nat2Z.inj_succ, Z.pow_succ_r in Hn by lia. lia. }
    assert (Hfuel : fuel ≠ O).
    { intros ->. simpl in Hlt. lia. }
    destruct (IH (n / 10) ((ord "0" + n mod 10) :: acc)) as (ds & Heq & Hds & Hv & Hl & Hk);
      [lia | done |].
    exists (ds ++ [ord "0" + n mod 10]).
    split; [by rewrite Heq, <- app_assoc|].
    split; [apply Forall_app; split; [done | by repeat constructor]|].
    split; [|split].
    + rewrite int_of_digits_snoc, Hv.
      pose proof (Z.div_mod n 10 ltac:(lia)). lia.
    + rewrite length_app; simpl. lia.
    + intros k Hk0 Hnk. rewrite length_app; simpl.
      destruct k as [|[|k]]; [done| |].
      * simpl in Hnk. assert (n / 10 = 0) by (apply Z.div_small; lia). lia.
      * assert (length ds ≤ S k)%nat; [|lia].
        apply Hk; [done|].
        apply Z.div_lt_upper_bound; [lia|].
        rewrite (Nat2Z.inj_succ (S k)), Z.pow_succ_r in Hnk by lia. lia.
Qed.

Lemma digits_spec (n : Z) :
  0 ≤ n →
  Forall (λ c, Json.is_digit c = true) (digits n)
  ∧ int_of_digits (digits n) = n
  ∧ ∀ k : nat, k ≠ O → n < 10 ^ Z.of_nat k → (length (digits n) ≤ k)%nat.
Proof.
  intros Hn. unfold digits.
  destruct (digits_fuel_spec (S (Z.to_nat (Z.log2 n))) n [])
    as (ds & Heq & Hds & Hv & _ & Hk); [|done|].
  - split; [done|].
    rewrite Nat2Z.inj_succ, Z2Nat.id by apply Z.log2_nonneg.
    destruct (Z.eq_dec n 0) as [->|Hne]; [done|].
    apply Z.log2_spec. lia.
  - rewrite Heq, app_nil_r. done.
Qed.

Lemma int_of_digits_zeros (k : nat) (s : str) :
  int_of_digits (replicate k (ord "0") ++ s) = int_of_digits s.
Proof.
  rewrite int_of_digits_app. f_equal.
  induction k as [|k IH]; [done|].
  change (replicate (S k) (ord "0")) with ([ord "0"] ++ replicate k (ord "0")).
  rewrite int_of_digits_app. unfold int_of_digits in IH. simpl.
  change (10 * 0 + (ord "0" - ord "0")) with 0. exact IH.
Qed.

(** A number below [10 ^ width] fills exactly [width] digits. *)
Lemma zfill_decimal (width : nat) (n : Z) :
  width ≠ O → 0 ≤ n < 10 ^ Z.of_nat width → decimal width n (zfill width (digits n)).
Proof.
  intros Hw [Hlo Hhi]. destruct (digits_spec n Hlo) as (Hds & Hv & Hk).
  pose proof (Hk width Hw Hhi) as Hlen. unfold decimal, zfill.
  split; [rewrite length_app, length_replicate; lia|].
  split; [apply Forall_app; split; [by apply Forall_replicate | done]|].
  by rewrite int_of_digits_zeros.
Qed.

(** [replace] rewrites a suffix [old] when the first character of [old]
    occurs nowhere before it. *)
Lemma replace_suffix (o : Z) (old new p : str) :
  o ∉ p → replace (o :: old) new (p ++ o :: old) = p ++ new.
Proof.
  intros Hp. unfold replace.
  assert (Hgen : ∀ fuel : nat,
            (length (p ++ o :: old) < fuel)%nat →
            replace_fuel fuel (o :: old) new (p ++ o :: old) = p ++ new).
  { induction p as [|c p IH]; intros fuel Hfuel.
    - destruct fuel as [|fuel]; [simpl in Hfuel; lia|].
      cbn [replace_fuel app].
      assert (Hs : strip_prefix (o :: old) (o :: old) = Some []).
      { clear. induction (o :: old) as [|x l IH]; simpl; [done|].
        by rewrite Z.eqb_refl. }
      rewrite Hs. destruct fuel; by rewrite app_nil_r.
    - apply not_elem_of_cons in Hp as [Hc Hp].
      destruct fuel as [|fuel]; [simpl in Hfuel; lia|].
      cbn [replace_fuel app strip_prefix].
      destruct (Z.eqb_spec o c) as [->|_]; [done|].
      simpl in Hfuel. rewrite IH by (done || lia). done. }
  apply Hgen. lia.
Qed.

Lemma digits_no_plus (width : nat) (n : Z) : ord "+" ∉ zfill width (digits n).
Proof.
  intros Hin. pose proof (zfill_digits_ascii width n) as _.
  unfold zfill in Hin. apply elem_of_app in Hin as [Hin|Hin].
  - apply elem_of_replicate in Hin as [Hin _]. discriminate Hin.
  - unfold digits in Hin. revert Hin.
    generalize (S (Z.to_nat (Z.log2 n))) as fuel.
    assert (Hgen : ∀ fuel m acc, ord "+" ∉ acc → ord "+" ∉ digits_fuel fuel m acc).
    { induction fuel as [|fuel IH]; intros m acc Hacc; simpl; [done|].
      assert (Hc : ord "+" ∉ (ord "0" + m mod 10) :: acc).
      { apply not_elem_of_cons. split; [|done].
        pose proof (Z.mod_pos_bound m 10 ltac:(lia)). unfold ord; simpl. lia. }
      destruct (_ =? _); [done | by apply IH]. }
    intros fuel. apply Hgen. apply not_elem_of_nil.
Qed.

(** X11 (lines 36 to 40).  The timestamp has the form
    [YYYY-MM-DDTHH:MM:SS.mmmZ]: 24 characters; each field is the decimal
    of the clock's field, with leading zeros; the milliseconds are the
    microseconds divided by 1000, rounded down; and the offset [+00:00]
    of UTC is written [Z]. *)
Theorem timestamp_format (t : datetime) :
  valid_datetime t →
  ∃ Y Mo D H Mi S ms,
    timestamp t
    = Y ++ lit "-" ++ Mo ++ lit "-" ++ D ++ lit "T" ++ H ++ lit ":" ++ Mi
      ++ lit ":" ++ S ++ lit "." ++ ms ++ lit "Z"
    ∧ decimal 4 (year t) Y ∧ decimal 2 (month t) Mo ∧ decimal 2 (day t) D
    ∧ decimal 2 (hour t) H ∧ decimal 2 (minute t) Mi ∧ decimal 2 (second t) S
    ∧ decimal 3 (microsecond t / 1000) ms
    ∧ length (timestamp t) = 24%nat.
Proof.
  intros (Hy & Hmo & Hd & Hh & Hmi & Hs & Hus).
  assert (Hms : 0 ≤ microsecond t / 1000 < 1000).
  { split; [apply Z.div_pos; lia | apply Z.div_lt_upper_bound; lia]. }
  pose proof (zfill_decimal 4 (year t) ltac:(done) ltac:(simpl; lia)) as HY.
  pose proof (zfill_decimal 2 (month t) ltac:(done) ltac:(simpl; lia)) as HMo.
  pose proof (zfill_decimal 2 (day t) ltac:(done) ltac:(simpl; lia)) as HD.
  pose proof (zfill_decimal 2 (hour t) ltac:(done) ltac:(simpl; lia)) as HH.
  pose proof (zfill_decimal 2 (minute t) ltac:(done) ltac:(simpl; lia)) as HMi.
  pose proof (zfill_decimal 2 (second t) ltac:(done) ltac:(simpl; lia)) as HS.
  pose proof (zfill_decimal 3 (microsecond t / 1000) ltac:(done) ltac:(simpl; lia)) as Hm.
  set (Y := zfill 4 (digits (year t))) in *.
  set (Mo := zfill 2 (digits (month t))) in *.
  set (D := zfill 2 (digits (day t))) in *.
  set (H := zfill 2 (digits (hour t))) in *.
  set (Mi := zfill 2 (digits (minute t))) in *.
  set (S := zfill 2 (digits (second t))) in *.
  set (ms := zfill 3 (digits (microsecond t / 1000))) in *.
  assert (Heq : timestamp t
                = Y ++ lit "-" ++ Mo ++ lit "-" ++ D ++ lit "T" ++ H ++ lit ":" ++ Mi
                  ++ lit ":" ++ S ++ lit "." ++ ms ++ lit "Z").
  { unfold timestamp, isoformat_milliseconds. fold Y Mo D H Mi S ms.
    transitivity
      ((Y ++ lit "-" ++ Mo ++ lit "-" ++ D ++ lit "T" ++ H ++ lit ":" ++ Mi
          ++ lit ":" ++ S ++ lit "." ++ ms) ++ lit "Z").
    - rewrite <- (replace_suffix (ord "+") (lit "00:00") (lit "Z")).
      + f_equal. by rewrite <- !app_assoc.
      + rewrite !elem_of_app.
        intros Hin.
        repeat (destruct Hin as [Hin|Hin];
                [first [ by apply digits_no_plus in Hin
                       | apply list_elem_of_singleton in Hin; discriminate Hin ]|]).
        by apply digits_no_plus in Hin.
    - by rewrite <- !app_assoc. }
  exists Y, Mo, D, H, Mi, S, ms. repeat (split; [done|]).
  rewrite Heq, !length_app.
  destruct HY as [-> _], HMo as [-> _], HD as [-> _], HH as [-> _],
    HMi as [-> _], HS as [-> _], Hm as [-> _].
  reflexivity.
Qed.

Lemma timestamp_format_witness :
  valid_datetime sample_now
  ∧ timestamp sample_now = lit "2024-01-02T03:04:05.678Z"
  ∧ length (timestamp sample_now) = 24%nat.
Proof.
  assert (H : valid_datetime sample_now) by (unfold valid_datetime; simpl; lia).
  split; [exact H|]. split; [vm_compute; reflexivity|].
  destruct (timestamp_format _ H) as (Y & Mo & D & Hh & Mi & S & ms & _ & _ & _ & _ & _ & _ & _ & _ & Hl).
  exact Hl.
Defined.

(** ** The canonical text (lines 57 to 62) *)

Lemma insert_item_sorted {V} (x : str * V) (l : list (str * V)) :
  StronglySorted key_le l → StronglySorted key_le (Json.insert_item x l).
Proof.
  induction 1 as [|y l Hl IH Hy]; simpl; [by repeat constructor|].
  destruct (str_leb x.1 y.1) eqn:Hxy.
  - constructor; [by constructor|]. constructor; [done|].
    eapply Forall_impl; [exact Hy|]. intros z Hz. unfold key_le in *.
    by apply (str_leb_trans _ y.1).
  - constructor; [done|].
    eapply Permutation_Forall; [symmetry; apply insert_item_perm|].
    constructor; [|done]. unfold key_le. by apply str_leb_false.
Qed.

(** X12 (lines 57 to 62, [sort_keys=True]).  The items of the canonical
    text are the items of the dict, each exactly once, in ascending order
    of their keys (code point by code point, a prefix first), whatever
    the order in which the dict was filled. *)
Theorem sorted_items_sorted (d : dict str) :
  StronglySorted key_le (Json.sorted_items d) ∧ Json.sorted_items d ≡ₚ d.
Proof.
  split; [|apply sorted_items_perm].
  induction d as [|x d IH]; simpl; [constructor|].
  by apply insert_item_sorted.
Qed.

(** X13 (lines 45 to 62).  The canonical text of the payload, for every
    timestamp and run URL: one object without any white space between its
    tokens, the six keys in the order [action_run_link], [email], [name],
    [repository_link], [resume_link], [timestamp], the four constant
    fields as written in the source. *)
Theorem canonical_payload (ts u : str) :
  canonical_json (payload ts u)
  = lit "{" ++ quoted "action_run_link" ++ lit ":" ++ Json.encode_string u
    ++ lit "," ++ quoted "email" ++ lit ":" ++ quoted "jamesjacobthomas7@gmail.com"
    ++ lit "," ++ quoted "name" ++ lit ":" ++ quoted "James Thomas"
    ++ lit "," ++ quoted "repository_link" ++ lit ":"
    ++ quoted "https://github.com/jtx007/b12-application"
    ++ lit "," ++ quoted "resume_link" ++ lit ":"
    ++ quoted "https://www.linkedin.com/in/james-thomas007/"
    ++ lit "," ++ quoted "timestamp" ++ lit ":" ++ Json.encode_string ts
    ++ lit "}".
Proof.
  unfold canonical_json, Json.dumps.
  assert (Hs : Json.sorted_items (payload ts u)
               = [(lit "action_run_link", u);
                  (lit "email", lit "jamesjacobthomas7@gmail.com");
                  (lit "name", lit "James Thomas");
                  (lit "repository_link", lit "https://github.com/jtx007/b12-application");
                  (lit "resume_link", lit "https://www.linkedin.com/in/james-thomas007/");
                  (lit "timestamp", ts)]) by reflexivity.
  rewrite Hs. cbn [map join Json.encode_item fst snd].
  rewrite <- !app_assoc. reflexivity.
Qed.

Lemma escape_char_plain (c : Z) : plain_char c → Json.escape_char c = [c].
Proof.
  intros (Hc & Hq & Hb). unfold Json.escape_char.
  destruct (Z.eqb_spec c dquote); [done|].
  destruct (Z.eqb_spec c backslash); [done|].
  repeat (match goal with
          | |- context [?x =? ?y] => destruct (Z.eqb_spec x y); [lia|]
          end).
  destruct (Z.ltb_spec c 0x20); [lia|]. by rewrite andb_false_r.
Qed.

(** X14 (line 61, [ensure_ascii=False]).  A text without control
    characters, quotes and backslashes is written between two quotes as
    it is: characters outside ASCII are not escaped. *)
Theorem encode_string_plain (s : str) :
  Forall plain_char s → Json.encode_string s = [dquote] ++ s ++ [dquote].
Proof.
  intros Hs. unfold Json.encode_string. do 2 f_equal.
  induction Hs as [|c s Hc _ IH]; [done|].
  cbn [map concat]. by rewrite (escape_char_plain c Hc), IH.
Qed.

Lemma encode_string_plain_witness :
  Forall plain_char [0x68; 0xE9; 0x20AC; 0x1F600]
  ∧ Json.encode_string [0x68; 0xE9; 0x20AC; 0x1F600]
    = [dquote] ++ [0x68; 0xE9; 0x20AC; 0x1F600] ++ [dquote].
Proof.
  assert (H : Forall plain_char [0x68; 0xE9; 0x20AC; 0x1F600]).
  { repeat constructor; unfold dquote, backslash, ord; simpl; lia. }
  split; [exact H|]. exact (encode_string_plain _ H).
Defined.

(** ** The UTF-8 codec (lines 31, 69, 80, 90 and 92) *)

(** Bit operations on disjoint fields are sums. *)
Lemma lor_disjoint (a x k : Z) :
  0 ≤ k → 0 ≤ x < 2 ^ k → Z.lor (a * 2 ^ k) x = a * 2 ^ k + x.
Proof.
  intros Hk Hx.
  assert (Hland : Z.land (a * 2 ^ k) x = 0).
  { apply Z.bits_inj'. intros n Hn. rewrite Z.land_spec, Z.bits_0.
    destruct (Z.lt_ge_cases n k) as [Hlt|Hge].
    - by rewrite Z.mul_pow2_bits_low.
    - rewrite <- (Z.mod_small x (2 ^ k)) by done.
      rewrite Z.mod_pow2_bits_high by lia. apply andb_false_r. }
  by rewrite <- Z.lxor_lor, <- Z.add_nocarry_lxor.
Qed.

Lemma land_low (x k : Z) : 0 ≤ k → Z.land x (2 ^ k - 1) = x mod 2 ^ k.
Proof.
  intros Hk. rewrite <- Z.land_ones by done. f_equal.
  rewrite Z.ones_equiv. lia.
Qed.

Lemma cont_arith (c shift : Z) :
  0 ≤ shift → Utf8.cont c shift = 128 + (c / 2 ^ shift) mod 64.
Proof.
  intros Hs. unfold Utf8.cont. rewrite Z.shiftr_div_pow2 by done.
  change 0x3F with (2 ^ 6 - 1). rewrite land_low by lia.
  change 0x80 with (2 * 2 ^ 6). rewrite lor_disjoint; [done | lia |].
  apply Z.mod_pos_bound. lia.
Qed.

Lemma in_range_spec (lo hi b : Z) : Utf8.in_range lo hi b = true ↔ lo ≤ b ≤ hi.
Proof.
  unfold Utf8.in_range. rewrite andb_true_iff, !Z.leb_le. tauto.
Qed.

Lemma in_range_true (lo hi b : Z) : lo ≤ b ≤ hi → Utf8.in_range lo hi b = true.
Proof. apply in_range_spec. Qed.

Lemma in_range_false (lo hi b : Z) : b < lo ∨ hi < b → Utf8.in_range lo hi b = false.
Proof.
  intros H. destruct (Utf8.in_range lo hi b) eqn:E; [|done].
  apply in_range_spec in E. lia.
Qed.

(** The bytes of a code point, by its range. *)
Lemma encode_char_cases (c : Z) :
  Utf8.encode_char c =
    if decide (0 ≤ c < 0x80) then Some [c]
    else if decide (0x80 ≤ c < 0x800) then Some [192 + c / 64; 128 + c mod 64]
    else if decide (0x800 ≤ c < 0xD800 ∨ 0xE000 ≤ c < 0x10000) then
      Some [224 + c / 4096; 128 + (c / 64) mod 64; 128 + c mod 64]
    else if decide (0x10000 ≤ c < 0x110000) then
      Some [240 + c / 262144; 128 + (c / 4096) mod 64; 128 + (c / 64) mod 64;
            128 + c mod 64]
    else None.
Proof.
  unfold Utf8.encode_char.
  rewrite !cont_arith by lia. rewrite !Z.shiftr_div_pow2 by lia.
  change (2 ^ 0) with 1. change (2 ^ 6) with 64. change (2 ^ 12) with 4096.
  change (2 ^ 18) with 262144. rewrite Z.div_1_r.
  repeat case_decide;
    repeat match goal with
           | |- context [?x <? ?y] => destruct (Z.ltb_spec x y); try lia
           | |- context [?x <=? ?y] => destruct (Z.leb_spec x y); try lia
           end; cbn [andb]; try done.
  - f_equal. f_equal. change 0xC0 with (6 * 2 ^ 5). rewrite lor_disjoint; [done|lia|].
    split; [apply Z.div_pos; lia | apply Z.div_lt_upper_bound; lia].
  - f_equal. f_equal. change 0xE0 with (14 * 2 ^ 4). rewrite lor_disjoint; [done|lia|].
    split; [apply Z.div_pos; lia | apply Z.div_lt_upper_bound; lia].
  - f_equal. f_equal. change 0xE0 with (14 * 2 ^ 4). rewrite lor_disjoint; [done|lia|].
    split; [apply Z.div_pos; lia | apply Z.div_lt_upper_bound; lia].
  - f_equal. f_equal. change 0xF0 with (30 * 2 ^ 3). rewrite lor_disjoint; [done|lia|].
    split; [apply Z.div_pos; lia | apply Z.div_lt_upper_bound; lia].
Qed.

(** The code point that [decode] reads, by the first byte. *)
Lemma decode_1 (b0 : Z) (r : bytes) :
  0 ≤ b0 ≤ 0x7F → Utf8.decode (b0 :: r) = cons b0 <$> Utf8.decode r.
Proof. intros H. cbn [Utf8.decode]. by rewrite in_range_true. Qed.

Lemma decode_2 (b0 b1 : Z) (r : bytes) :
  0xC2 ≤ b0 ≤ 0xDF → 0x80 ≤ b1 ≤ 0xBF →
  Utf8.decode (b0 :: b1 :: r)
  = cons ((b0 - 192) * 64 + (b1 - 128)) <$> Utf8.decode r.
Proof.
  intros H0 H1. cbn [Utf8.decode].
  rewrite (in_range_false 0 0x7F) by lia.
  rewrite (in_range_true 0xC2 0xDF), (in_range_true 0x80 0xBF) by lia.
  f_equal. f_equal. unfold Utf8.low6.
  change 0x1F with (2 ^ 5 - 1). change 0x3F with (2 ^ 6 - 1).
  rewrite !land_low, Z.shiftl_mul_pow2 by lia.
  rewrite lor_disjoint by (try apply Z.mod_pos_bound; lia).
  change (2 ^ 5) with 32. change (2 ^ 6) with 64.
  Z.div_mod_to_equations. lia.
Qed.

Lemma decode_3 (b0 b1 b2 : Z) (r : bytes) :
  0xE0 ≤ b0 ≤ 0xEF →
  (if decide (b0 = 0xE0) then 0xA0 else 0x80) ≤ b1
  ≤ (if decide (b0 = 0xED) then 0x9F else 0xBF) →
  0x80 ≤ b2 ≤ 0xBF →
  Utf8.decode (b0 :: b1 :: b2 :: r)
  = cons ((b0 - 224) * 4096 + (b1 - 128) * 64 + (b2 - 128)) <$> Utf8.decode r.
Proof.
  intros H0 H1 H2. cbn [Utf8.decode].
  rewrite (in_range_false 0 0x7F), (in_range_false 0xC2 0xDF) by lia.
  rewrite (in_range_true 0xE0 0xEF) by lia.
  assert (Hb1 : Utf8.in_range (if b0 =? 0xE0 then 0xA0 else 0x80)
                  (if b0 =? 0xED then 0x9F else 0xBF) b1 = true).
  { apply in_range_true.
    destruct (Z.eqb_spec b0 0xE0), (Z.eqb_spec b0 0xED);
      repeat case_decide; lia. }
  cbv zeta. rewrite Hb1, (in_range_true 0x80 0xBF) by lia. cbn [andb].
  f_equal. f_equal. unfold Utf8.low6.
  change 0x0F with (2 ^ 4 - 1). change 0x3F with (2 ^ 6 - 1).
  rewrite !land_low, !Z.shiftl_mul_pow2 by lia.
  assert (Hb : 128 ≤ b1 ≤ 191) by (repeat case_decide; lia).
  assert (Hm1 : 0 ≤ b1 mod 2 ^ 6 < 64) by (apply Z.mod_pos_bound; lia).
  assert (Hm2 : 0 ≤ b2 mod 2 ^ 6 < 64) by (apply Z.mod_pos_bound; lia).
  rewrite (lor_disjoint (b1 mod 2 ^ 6) (b2 mod 2 ^ 6) 6) by lia.
  rewrite (lor_disjoint (b0 mod 2 ^ 4) _ 12) by lia.
  change (2 ^ 4) with 16 in *. change (2 ^ 6) with 64 in *.
  change (2 ^ 12) with 4096.
  clear H1 Hb1. Z.div_mod_to_equations. lia.
Qed.

Lemma decode_4 (b0 b1 b2 b3 : Z) (r : bytes) :
  0xF0 ≤ b0 ≤ 0xF4 →
  (if decide (b0 = 0xF0) then 0x90 else 0x80) ≤ b1
  ≤ (if decide (b0 = 0xF4) then 0x8F else 0xBF) →
  0x80 ≤ b2 ≤ 0xBF → 0x80 ≤ b3 ≤ 0xBF →
  Utf8.decode (b0 :: b1 :: b2 :: b3 :: r)
  = cons ((b0 - 240) * 262144 + (b1 - 128) * 4096 + (b2 - 128) * 64 + (b3 - 128))
      <$> Utf8.decode r.
Proof.
  intros H0 H1 H2 H3. cbn [Utf8.decode].
  rewrite (in_range_false 0 0x7F), (in_range_false 0xC2 0xDF),
    (in_range_false 0xE0 0xEF) by lia.
  rewrite (in_range_true 0xF0 0xF4) by lia.
  assert (Hb1 : Utf8.in_range (if b0 =? 0xF0 then 0x90 else 0x80)
                  (if b0 =? 0xF4 then 0x8F else 0xBF) b1 = true).
  { apply in_range_true.
    destruct (Z.eqb_spec b0 0xF0), (Z.eqb_spec b0 0xF4);
      repeat case_decide; lia. }
  cbv zeta. rewrite Hb1, !(in_range_true 0x80 0xBF) by lia. cbn [andb].
  f_equal. f_equal. unfold Utf8.low6.
  change 0x07 with (2 ^ 3 - 1). change 0x3F with (2 ^ 6 - 1).
  rewrite !land_low, !Z.shiftl_mul_pow2 by lia.
  assert (Hb : 128 ≤ b1 ≤ 191) by (repeat case_decide; lia).
  assert (Hm1 : 0 ≤ b1 mod 2 ^ 6 < 64) by (apply Z.mod_pos_bound; lia).
  assert (Hm2 : 0 ≤ b2 mod 2 ^ 6 < 64) by (apply Z.mod_pos_bound; lia).
  assert (Hm3 : 0 ≤ b3 mod 2 ^ 6 < 64) by (apply Z.mod_pos_bound; lia).
  rewrite (lor_disjoint (b2 mod 2 ^ 6) (b3 mod 2 ^ 6) 6) by lia.
  rewrite (lor_disjoint (b1 mod 2 ^ 6) _ 12) by lia.
  rewrite (lor_disjoint (b0 mod 2 ^ 3) _ 18) by lia.
  change (2 ^ 3) with 8 in *. change (2 ^ 6) with 64 in *.
  change (2 ^ 12) with 4096. change (2 ^ 18) with 262144.
  clear H1 Hb1. Z.div_mod_to_equations. lia.
Qed.

Lemma decode_encode_char (c : Z) (bs r : bytes) :
  Utf8.encode_char c = Some bs →
  Utf8.decode (bs ++ r) = cons c <$> Utf8.decode r.
Proof.
  rewrite encode_char_cases. intros H.
  repeat case_decide; try discriminate H; injection H as <-; cbn [app].
  - by apply decode_1; lia.
  - rewrite decode_2; [|Z.div_mod_to_equations; lia..].
    do 2 f_equal. Z.div_mod_to_equations. lia.
  - rewrite decode_3; [|repeat case_decide; Z.div_mod_to_equations; lia..].
    do 2 f_equal. Z.div_mod_to_equations. lia.
  - rewrite decode_4; [|repeat case_decide; Z.div_mod_to_equations; lia..].
    do 2 f_equal. Z.div_mod_to_equations. lia.
Qed.

(** Decoding undoes encoding. *)
Lemma decode_of_encode (s : str) (b : bytes) :
  Utf8.encode s = Some b → Utf8.decode b = Some s.
Proof.
  revert b. induction s as [|c s IH]; intros b; simpl.
  - by intros [= <-].
  - destruct (Utf8.encode_char c) as [bc|] eqn:Hc; [|done].
    destruct (Utf8.encode s) as [r|]; [|done]. intros [= <-].
    by rewrite (decode_encode_char c bc r Hc), (IH r).
Qed.

Lemma encode_decoded_2 (b0 b1 : Z) :
  0xC2 ≤ b0 ≤ 0xDF → 0x80 ≤ b1 ≤ 0xBF →
  Utf8.encode_char ((b0 - 192) * 64 + (b1 - 128)) = Some [b0; b1].
Proof.
  intros H0 H1. rewrite encode_char_cases.
  repeat case_decide; try lia.
  do 2 f_equal; [|f_equal]; Z.div_mod_to_equations; lia.
Qed.

Lemma encode_decoded_3 (b0 b1 b2 : Z) :
  0xE0 ≤ b0 ≤ 0xEF →
  (if decide (b0 = 0xE0) then 0xA0 else 0x80) ≤ b1
  ≤ (if decide (b0 = 0xED) then 0x9F else 0xBF) →
  0x80 ≤ b2 ≤ 0xBF →
  Utf8.encode_char ((b0 - 224) * 4096 + (b1 - 128) * 64 + (b2 - 128))
  = Some [b0; b1; b2].
Proof.
  intros H0 H1 H2. rewrite encode_char_cases.
  repeat case_decide; try lia.
  all: do 2 f_equal; [|f_equal; [|f_equal]]; Z.div_mod_to_equations; lia.
Qed.

Lemma encode_decoded_4 (b0 b1 b2 b3 : Z) :
  0xF0 ≤ b0 ≤ 0xF4 →
  (if decide (b0 = 0xF0) then 0x90 else 0x80) ≤ b1
  ≤ (if decide (b0 = 0xF4) then 0x8F else 0xBF) →
  0x80 ≤ b2 ≤ 0xBF → 0x80 ≤ b3 ≤ 0xBF →
  Utf8.encode_char
    ((b0 - 240) * 262144 + (b1 - 128) * 4096 + (b2 - 128) * 64 + (b3 - 128))
  = Some [b0; b1; b2; b3].
Proof.
  intros H0 H1 H2 H3. rewrite encode_char_cases.
  repeat case_decide; try lia.
  all: do 2 f_equal; [|f_equal; [|f_equal; [|f_equal]]];
    Z.div_mod_to_equations; lia.
Qed.

(** What [decode] accepts at the head of a byte string: one of the four
    forms, with the rest decoded in turn. *)
Lemma decode_cons_inv (b0 : Z) (r0 : bytes) (s : str) :
  Utf8.decode (b0 :: r0) = Some s →
  ∃ c s' bs r,
    s = c :: s' ∧ b0 :: r0 = bs ++ r ∧ Utf8.encode_char c = Some bs
    ∧ Utf8.decode r = Some s' ∧ (length r < length (b0 :: r0))%nat.
Proof.
  intros H.
  destruct (decide (0 ≤ b0 ≤ 0x7F)) as [H1|H1].
  { rewrite decode_1 in H by done.
    destruct (Utf8.decode r0) as [s'|] eqn:Hr; [|done]. injection H as <-.
    exists b0, s', [b0], r0. repeat split; try done; [|simpl; lia].
    apply encode_char_ascii. unfold is_ascii. lia. }
  destruct (decide (0xC2 ≤ b0 ≤ 0xDF)) as [H2|H2].
  { destruct r0 as [|b1 r1].
    { cbn [Utf8.decode] in H. rewrite in_range_false, in_range_true in H by lia. done. }
    destruct (decide (0x80 ≤ b1 ≤ 0xBF)) as [Hb1|Hb1].
    - rewrite decode_2 in H by done.
      destruct (Utf8.decode r1) as [s'|] eqn:Hr; [|done]. injection H as <-.
      eexists _, s', [b0; b1], r1. repeat split; try done; [|simpl; lia].
      by apply encode_decoded_2.
    - cbn [Utf8.decode] in H.
      rewrite (in_range_false 0 0x7F), (in_range_true 0xC2 0xDF),
        (in_range_false 0x80 0xBF) in H by lia. done. }
  destruct (decide (0xE0 ≤ b0 ≤ 0xEF)) as [H3|H3].
  { cbn [Utf8.decode] in H.
    rewrite (in_range_false 0 0x7F), (in_range_false 0xC2 0xDF),
      (in_range_true 0xE0 0xEF) in H by lia.
    destruct r0 as [|b1 [|b2 r2]]; try done. cbv zeta in H.
    destruct (Utf8.in_range _ _ b1) eqn:Hb1; [|done].
    destruct (Utf8.in_range 0x80 0xBF b2) eqn:Hb2; [|done].
    apply in_range_spec in Hb1, Hb2. cbn [andb] in H.
    assert (Hb1' : (if decide (b0 = 0xE0) then 0xA0 else 0x80) ≤ b1
                   ≤ (if decide (b0 = 0xED) then 0x9F else 0xBF)).
    { destruct (Z.eqb_spec b0 0xE0), (Z.eqb_spec b0 0xED);
        repeat case_decide; lia. }
    pose proof (decode_3 b0 b1 b2 r2 H3 Hb1' Hb2) as Hd.
    cbn [Utf8.decode] in Hd.
    rewrite (in_range_false 0 0x7F), (in_range_false 0xC2 0xDF),
      (in_range_true 0xE0 0xEF) in Hd by lia.
    cbv zeta in Hd.
    rewrite (proj2 (in_range_spec _ _ b1) Hb1),
      (proj2 (in_range_spec _ _ b2) Hb2) in Hd.
    cbn [andb] in Hd. rewrite Hd in H.
    destruct (Utf8.decode r2) as [s'|] eqn:Hr; [|done]. injection H as <-.
    eexists _, s', [b0; b1; b2], r2. repeat split; try done; [|simpl; lia].
    by apply encode_decoded_3. }
  destruct (decide (0xF0 ≤ b0 ≤ 0xF4)) as [H4|H4].
  { cbn [Utf8.decode] in H.
    rewrite (in_range_false 0 0x7F), (in_range_false 0xC2 0xDF),
      (in_range_false 0xE0 0xEF), (in_range_true 0xF0 0xF4) in H by lia.
    destruct r0 as [|b1 [|b2 [|b3 r3]]]; try done. cbv zeta in H.
    destruct (Utf8.in_range _ _ b1) eqn:Hb1; [|done].
    destruct (Utf8.in_range 0x80 0xBF b2) eqn:Hb2; [|done].
    destruct (Utf8.in_range 0x80 0xBF b3) eqn:Hb3; [|done].
    apply in_range_spec in Hb1, Hb2, Hb3. cbn [andb] in H.
    assert (Hb1' : (if decide (b0 = 0xF0) then 0x90 else 0x80) ≤ b1
                   ≤ (if decide (b0 = 0xF4) then 0x8F else 0xBF)).
    { destruct (Z.eqb_spec b0 0xF0), (Z.eqb_spec b0 0xF4);
        repeat case_decide; lia. }
    pose proof (decode_4 b0 b1 b2 b3 r3 H4 Hb1' Hb2 Hb3) as Hd.
    cbn [Utf8.decode] in Hd.
    rewrite (in_range_false 0 0x7F), (in_range_false 0xC2 0xDF),
      (in_range_false 0xE0 0xEF), (in_range_true 0xF0 0xF4) in Hd by lia.
    cbv zeta in Hd.
    rewrite (proj2 (in_range_spec _ _ b1) Hb1),
      (proj2 (in_range_spec _ _ b2) Hb2),
      (proj2 (in_range_spec _ _ b3) Hb3) in Hd.
    cbn [andb] in Hd. rewrite Hd in H.
    destruct (Utf8.decode r3) as [s'|] eqn:Hr; [|done]. injection H as <-.
    eexists _, s', [b0; b1; b2; b3], r3. repeat split; try done; [|simpl; lia].
    by apply encode_decoded_4. }
  cbn [Utf8.decode] in H.
  rewrite (in_range_false 0 0x7F), (in_range_false 0xC2 0xDF),
    (in_range_false 0xE0 0xEF), (in_range_false 0xF0 0xF4) in H by lia.
  done.
Qed.

(** Encoding undoes decoding. *)
Lemma encode_of_decode (b : bytes) (s : str) :
  Utf8.decode b = Some s → Utf8.encode s = Some b.
Proof.
  remember (length b) as n eqn:Hn. revert b s Hn.
  induction n as [n IH] using lt_wf_ind. intros b s Hn Hd.
  destruct b as [|b0 r0].
  - injection Hd as <-. done.
  - apply decode_cons_inv in Hd as (c & s' & bs & r & -> & Hb & Hc & Hr & Hlen).
    rewrite Hb. cbn [Utf8.encode]. rewrite Hc.
    rewrite (IH (length r) ltac:(lia) r s' eq_refl Hr). done.
Qed.

(** X15 (lines 31, 69, 80, 90 and 92).  [str.encode("utf-8")] and
    [bytes.decode("utf-8")] are inverse to each other: a text encodes to
    some bytes exactly when these bytes decode to the text.  So the
    receiver of the request reads the canonical text that was signed,
    and [decode] accepts a body only in the one form that [encode]
    writes (no overlong form, no surrogate, nothing cut short). *)
Theorem utf8_round_trip (s : str) (b : bytes) :
  Utf8.encode s = Some b ↔ Utf8.decode b = Some s.
Proof. split; [apply decode_of_encode | apply encode_of_decode]. Qed.

(** ** Reading the canonical text back (lines 57 to 62, and 102 on the
    receiving side) *)

Lemma lex_cons (s : Json.lex_state) (c : Z) (text : str) :
  Json.lex s (c :: text) =
    match Json.lex_step s c with
    | Some (s', toks) => more ← Json.lex s' text; Some (toks ++ more)
    | None => None
    end.
Proof. cbn [Json.lex]. by destruct (Json.lex_step s c) as [[s' toks]|]. Qed.

Lemma silent_lex (s s' : Json.lex_state) (x rest : str) :
  silent s x = Some s' → Json.lex s (x ++ rest) = Json.lex s' rest.
Proof.
  revert s. induction x as [|c x IH]; intros s; cbn [silent app].
  - by intros [= ->].
  - rewrite lex_cons. destruct (Json.lex_step s c) as [[s1 [|t toks]]|]; try done.
    intros Hs. rewrite (IH s1 Hs). by destruct (Json.lex s' rest).
Qed.

Lemma silent_app (s : Json.lex_state) (a b : str) :
  silent s (a ++ b) = s' ← silent s a; silent s' b.
Proof.
  revert s. induction a as [|c a IH]; intros s; cbn [silent app].
  - done.
  - destruct (Json.lex_step s c) as [[s1 [|t toks]]|]; first [done | apply IH].
Qed.

(** An escaped character is read back as the character. *)
Lemma silent_escape_char (c : Z) (acc : str) (hi : bool) :
  silent (Json.LString acc hi) (Json.escape_char c)
  = Some (Json.LString (c :: acc) false).
Proof.
  unfold Json.escape_char.
  destruct (Z.eqb_spec c dquote) as [->|Hq]; [reflexivity|].
  destruct (Z.eqb_spec c backslash) as [->|Hb]; [reflexivity|].
  destruct (Z.eqb_spec c 8) as [->|?]; [reflexivity|].
  destruct (Z.eqb_spec c 12) as [->|?]; [reflexivity|].
  destruct (Z.eqb_spec c 10) as [->|?]; [reflexivity|].
  destruct (Z.eqb_spec c 13) as [->|?]; [reflexivity|].
  destruct (Z.eqb_spec c 9) as [->|?]; [reflexivity|].
  destruct ((0 <=? c) && (c <? 0x20)) eqn:Hctl.
  - apply andb_true_iff in Hctl as [Hlo%Z.leb_le Hhi%Z.ltb_lt].
    assert (Hcases : c = 0 ∨ c = 1 ∨ c = 2 ∨ c = 3 ∨ c = 4 ∨ c = 5 ∨ c = 6 ∨ c = 7
                     ∨ c = 8 ∨ c = 9 ∨ c = 10 ∨ c = 11 ∨ c = 12 ∨ c = 13 ∨ c = 14
                     ∨ c = 15 ∨ c = 16 ∨ c = 17 ∨ c = 18 ∨ c = 19 ∨ c = 20
                     ∨ c = 21 ∨ c = 22 ∨ c = 23 ∨ c = 24 ∨ c = 25 ∨ c = 26
                     ∨ c = 27 ∨ c = 28 ∨ c = 29 ∨ c = 30 ∨ c = 31) by lia.
    clear -Hcases. destruct acc as [|h acc], hi;
      repeat destruct Hcases as [->|Hcases]; try reflexivity;
      subst; reflexivity.
  - cbn [silent Json.lex_step].
    apply Z.eqb_neq in Hq, Hb. by rewrite Hq, Hb, Hctl.
Qed.

Lemma silent_string (s acc : str) (hi : bool) :
  ∃ hi',
    silent (Json.LString acc hi) (concat (map Json.escape_char s))
    = Some (Json.LString (rev s ++ acc) hi').
Proof.
  revert acc hi. induction s as [|c s IH]; intros acc hi; [by exists hi|].
  destruct (IH (c :: acc) false) as [hi' Hs]. exists hi'.
  cbn [map concat rev]. rewrite silent_app, silent_escape_char.
  cbn [mbind option_bind]. by rewrite Hs, <- app_assoc.
Qed.

Lemma emits_nil : emits [] [].
Proof. intros rest. cbn [app]. by destruct (Json.lex Json.LIdle rest). Qed.

Lemma emits_app (x y : str) (t u : list Json.token) :
  emits x t → emits y u → emits (x ++ y) (t ++ u).
Proof.
  intros Hx Hy rest. rewrite <- app_assoc, Hx, Hy.
  destruct (Json.lex Json.LIdle rest); cbn [mbind option_bind]; [|done].
  by rewrite app_assoc.
Qed.

Lemma emits_punctuation :
  emits (lit "{") [Json.TLBrace] ∧ emits (lit "}") [Json.TRBrace]
  ∧ emits (lit ":") [Json.TColon] ∧ emits (lit ",") [Json.TComma].
Proof. repeat split; intros rest; reflexivity. Qed.

(** A string is read back as written. *)
Lemma emits_string (s : str) :
  emits (Json.encode_string s) [Json.TScalar (Json.VStr s)].
Proof.
  intros rest. unfold Json.encode_string.
  rewrite <- !app_assoc. cbn [app]. rewrite lex_cons.
  change (Json.lex_step Json.LIdle dquote) with (Some (Json.LString [] false, @nil Json.token)).
  destruct (silent_string s [] false) as [hi' Hs].
  rewrite (silent_lex _ _ _ (dquote :: rest) Hs), lex_cons.
  cbn [Json.lex_step]. change (dquote =? dquote) with true. cbv iota.
  rewrite app_nil_r, rev_involutive.
  by destruct (Json.lex Json.LIdle rest).
Qed.

Lemma emits_item (kv : str * str) : emits (Json.encode_item kv) (item_tokens kv).
Proof.
  unfold Json.encode_item, item_tokens.
  apply (emits_app _ _ [_] [_; _]); [apply emits_string|].
  apply (emits_app _ _ [_] [_]); [apply emits_punctuation | apply emits_string].
Qed.

Lemma emits_items (items : list (str * str)) :
  emits (join (lit ",") (map Json.encode_item items)) (items_tokens items).
Proof.
  induction items as [|kv items IH]; [apply emits_nil|].
  destruct items as [|kv' items]; [apply emits_item|].
  change (emits (Json.encode_item kv ++ lit ","
                 ++ join (lit ",") (map Json.encode_item (kv' :: items)))
            (item_tokens kv ++ [Json.TComma] ++ items_tokens (kv' :: items))).
  apply emits_app; [apply emits_item|].
  apply emits_app; [apply emits_punctuation | exact IH].
Qed.

(** The tokens of the canonical text. *)
Lemma lex_dumps (d : dict str) :
  Json.lex Json.LIdle (Json.dumps d)
  = Some ([Json.TLBrace] ++ items_tokens (Json.sorted_items d) ++ [Json.TRBrace]).
Proof.
  assert (He : emits (Json.dumps d)
                 ([Json.TLBrace] ++ items_tokens (Json.sorted_items d)
                  ++ [Json.TRBrace])).
  { unfold Json.dumps. apply emits_app; [apply emits_punctuation|].
    apply emits_app; [apply emits_items | apply emits_punctuation]. }
  specialize (He []). rewrite app_nil_r in He. rewrite He.
  cbn [Json.lex Json.lex_end mbind option_bind]. by rewrite app_nil_r.
Qed.

(** A key that the object does not hold yet goes last. *)
Lemma dict_set_fresh {V} (k : str) (v : V) (d : dict V) :
  k ∉ d.*1 → dict_set k v d = d ++ [(k, v)].
Proof.
  induction d as [|[k' v'] d IH]; [done|].
  rewrite fmap_cons. cbn [fst dict_set app].
  intros [Hne Hk]%not_elem_of_cons.
  rewrite decide_False by done. by rewrite IH.
Qed.

(** The tokens of one item put the item into the object. *)
Lemma parse_item (k v : str) (acc : dict Json.value) (m : Json.mode)
    (toks : list Json.token) :
  m = Json.PObjFirst ∨ m = Json.PObjKey → k ∉ acc.*1 →
  Json.parse m [Json.FObj acc] (item_tokens (k, v) ++ toks)
  = Json.parse Json.PAfter [Json.FObj (acc ++ [(k, Json.VStr v)])] toks.
Proof.
  intros Hm Hk. unfold item_tokens. cbn [fst snd app Json.parse].
  assert (Hkey : Json.parse_step m [Json.FObj acc] (Json.TScalar (Json.VStr k))
                 = Some (Json.PColon, [Json.FKey k; Json.FObj acc]))
    by (by destruct Hm as [-> | ->]).
  rewrite Hkey. cbn [mbind option_bind Json.parse_step Json.parse_value_start
                     Json.deliver].
  by rewrite (dict_set_fresh k _ acc Hk).
Qed.

Lemma parse_items (items : list (str * str)) :
  ∀ (acc : dict Json.value) (m : Json.mode),
    items ≠ [] → m = Json.PObjFirst ∨ m = Json.PObjKey →
    NoDup (acc.*1 ++ items.*1) →
    Json.parse m [Json.FObj acc] (items_tokens items ++ [Json.TRBrace])
    = Some (Json.VDict (acc ++ map string_value items)).
Proof.
  induction items as [|[k v] items IH]; intros acc m Hne Hm Hnd; [done|].
  assert (Hk : k ∉ acc.*1).
  { apply NoDup_app in Hnd as (_ & Hd & _). intros Hin.
    apply (Hd k Hin). rewrite fmap_cons. apply list_elem_of_here. }
  destruct items as [|kv' items].
  - cbn [items_tokens]. by rewrite (parse_item k v acc m _ Hm Hk).
  - change (items_tokens ((k, v) :: kv' :: items))
      with (item_tokens (k, v) ++ [Json.TComma] ++ items_tokens (kv' :: items)).
    rewrite <- !app_assoc, (parse_item k v acc m _ Hm Hk).
    cbn [app Json.parse Json.parse_step mbind option_bind].
    rewrite (IH (acc ++ [(k, Json.VStr v)]) Json.PObjKey); [|done|by right|].
    + cbn [map]. by rewrite <- app_assoc.
    + rewrite fmap_app, <- app_assoc. exact Hnd.
Qed.

Lemma loads_dumps_items (d : dict str) :
  NoDup d.*1 →
  Json.loads (Json.dumps d)
  = Some (Json.VDict (map string_value (Json.sorted_items d))).
Proof.
  intros Hnd. unfold Json.loads. rewrite lex_dumps. cbn [mbind option_bind].
  assert (Hs : NoDup (Json.sorted_items d).*1).
  { by rewrite sorted_items_perm. }
  destruct (Json.sorted_items d) as [|kv items] eqn:Hitems; [reflexivity|].
  cbn [app Json.parse Json.parse_step Json.parse_value_start mbind option_bind].
  by rewrite (parse_items (kv :: items) [] Json.PObjFirst); [| |left|].
Qed.

Lemma dict_get_elem {V} (k : str) (v : V) (d : dict V) :
  NoDup d.*1 → dict_get k d = Some v ↔ (k, v) ∈ d.
Proof.
  induction d as [|[k' v'] d IH]; cbn [dict_get].
  - intros _. split; [done|]. by intros ?%elem_of_nil.
  - rewrite fmap_cons. intros [Hk' Hnd]%NoDup_cons. cbn [fst] in Hk'.
    rewrite elem_of_cons. destruct (decide (k = k')) as [->|Hne].
    + split.
      * intros [= ->]. by left.
      * intros [[= ->]|Hin]; [done|].
        exfalso. apply Hk'. apply list_elem_of_fmap. by exists (k', v).
    + rewrite (IH Hnd). split; [by right|].
      intros [[= ? ?]|Hin]; done.
Qed.

Lemma dict_get_permutation {V} (k : str) (d1 d2 : dict V) :
  NoDup d1.*1 → d1 ≡ₚ d2 → dict_get k d1 = dict_get k d2.
Proof.
  intros Hnd Hp.
  assert (Hnd2 : NoDup d2.*1) by (by rewrite <- Hp).
  apply option_eq. intros v.
  rewrite (dict_get_elem k v d1 Hnd), (dict_get_elem k v d2 Hnd2).
  by rewrite Hp.
Qed.

Lemma dict_get_string_value (k : str) (items : list (str * str)) :
  dict_get k (map string_value items) = Json.VStr <$> dict_get k items.
Proof.
  induction items as [|[k' v'] items IH]; [done|].
  cbn [map string_value dict_get fst snd].
  by destruct (decide (k = k')).
Qed.

(** X16 (lines 57 to 62, and [json.loads] of line 102 on the receiving
    side).  The canonical text is valid JSON, and reading it gives the
    dict back: an object of strings with the items in ascending order of
    the keys, in which every key has the value it had. *)
Theorem loads_dumps (d : dict str) :
  NoDup d.*1 →
  Json.loads (Json.dumps d)
  = Some (Json.VDict (map string_value (Json.sorted_items d)))
  ∧ ∀ k, dict_get k (map string_value (Json.sorted_items d))
         = Json.VStr <$> dict_get k d.
Proof.
  intros Hnd. split; [by apply loads_dumps_items|].
  intros k. rewrite dict_get_string_value. f_equal.
  symmetry. apply dict_get_permutation; [exact Hnd|].
  symmetry. apply sorted_items_perm.
Qed.

Lemma loads_dumps_witness :
  NoDup [(lit "b", lit "1"); (lit "a", [10; dquote])].*1
  ∧ Json.loads (Json.dumps [(lit "b", lit "1"); (lit "a", [10; dquote])])
    = Some (Json.VDict [(lit "a", Json.VStr [10; dquote]);
                        (lit "b", Json.VStr (lit "1"))]).
Proof.
  assert (Hnd : NoDup [(lit "b", lit "1"); (lit "a", [10; dquote])].*1)
    by (apply (bool_decide_unpack _); vm_compute; reflexivity).
  split; [exact Hnd|].
  exact (proj1 (loads_dumps [(lit "b", lit "1"); (lit "a", [10; dquote])] Hnd)).
Defined.

Lemma payload_keys_distinct (ts u : str) : NoDup (payload ts u).*1.
Proof. apply (bool_decide_unpack _). vm_compute. reflexivity. Qed.

(** X17 (lines 45 to 86).  What is on the wire is the payload: the body
    of every request that is sent is UTF-8 text, this text is JSON, and
    the object it denotes holds the value of every key of the payload,
    among them the run URL of the environment and the timestamp. *)
Theorem sent_body_reads_back (w : world) (r : Request) :
  r ∈ requests (run w) →
  ∃ u text parsed,
    environ w !! RUN_URL_NAME = Some u
    ∧ Utf8.decode (data r) = Some text
    ∧ Json.loads text = Some (Json.VDict parsed)
    ∧ (∀ k, dict_get k parsed
            = Json.VStr <$> dict_get k (payload (timestamp (now w)) u))
    ∧ dict_get (lit "action_run_link") parsed = Some (Json.VStr u)
    ∧ dict_get (lit "timestamp") parsed = Some (Json.VStr (timestamp (now w))).
Proof.
  intros (s & u & key & body & Hs & Hu & Hk & Hb & ->)%sent_inv.
  set (p := payload (timestamp (now w)) u) in *.
  assert (Hnd : NoDup p.*1) by apply payload_keys_distinct.
  assert (Hget : ∀ k, dict_get k (map string_value (Json.sorted_items p))
                      = Json.VStr <$> dict_get k p).
  { intros k. rewrite dict_get_string_value. f_equal.
    symmetry. apply dict_get_permutation; [exact Hnd|].
    symmetry. apply sorted_items_perm. }
  exists u, (canonical_json p), (map string_value (Json.sorted_items p)).
  split; [exact Hu|]. split; [exact (decode_of_encode _ _ Hb)|].
  split; [exact (loads_dumps_items p Hnd)|]. split; [exact Hget|].
  split; rewrite Hget; reflexivity.
Qed.

Lemma sent_body_reads_back_witness :
  sample_request ∈ requests (run (responding receipt_body))
  ∧ ∃ u text parsed,
      environ (responding receipt_body) !! RUN_URL_NAME = Some u
      ∧ Utf8.decode (data sample_request) = Some text
      ∧ Json.loads text = Some (Json.VDict parsed)
      ∧ (∀ k, dict_get k parsed
              = Json.VStr <$> dict_get k
                  (payload (timestamp (now (responding receipt_body))) u))
      ∧ dict_get (lit "action_run_link") parsed = Some (Json.VStr u)
      ∧ dict_get (lit "timestamp") parsed
        = Some (Json.VStr (timestamp (now (responding receipt_body)))).
Proof.
  assert (H : sample_request ∈ requests (run (responding receipt_body))).
  { unfold responding. rewrite sample_request_sent. apply list_elem_of_here. }
  split; [exact H|].
  exact (sent_body_reads_back (responding receipt_body) sample_request H).
Defined.

(** ** When a request is sent *)

Lemma escape_char_encodable_inv (c : Z) :
  encodable (Json.escape_char c) → is_Some (Utf8.encode_char c).
Proof.
  unfold Json.escape_char.
  assert (Ha : is_ascii c → is_Some (Utf8.encode_char c))
    by (intros ->%encode_char_ascii; eauto).
  destruct (Z.eqb_spec c dquote) as [->|_]; [intros _; by apply Ha|].
  destruct (Z.eqb_spec c backslash) as [->|_]; [intros _; by apply Ha|].
  destruct (Z.eqb_spec c 8) as [->|_]; [intros _; by apply Ha|].
  destruct (Z.eqb_spec c 12) as [->|_]; [intros _; by apply Ha|].
  destruct (Z.eqb_spec c 10) as [->|_]; [intros _; by apply Ha|].
  destruct (Z.eqb_spec c 13) as [->|_]; [intros _; by apply Ha|].
  destruct (Z.eqb_spec c 9) as [->|_]; [intros _; by apply Ha|].
  destruct ((0 <=? c) && (c <? 0x20)) eqn:Hctl.
  - apply andb_true_iff in Hctl as [Hlo%Z.leb_le Hhi%Z.ltb_lt].
    intros _. apply Ha. unfold is_ascii. lia.
  - by intros [Hc _]%encodable_cons.
Qed.

Lemma escaped_encodable_inv (s : str) :
  encodable (concat (map Json.escape_char s)) → encodable s.
Proof.
  induction s as [|c s IH]; [done|].
  change (encodable (Json.escape_char c ++ concat (map Json.escape_char s))
          → encodable (c :: s)).
  intros [Hc Hs]%encodable_app. apply encodable_cons.
  split; [by apply escape_char_encodable_inv | by apply IH].
Qed.

Lemma encode_string_encodable_inv (s : str) :
  encodable (Json.encode_string s) → encodable s.
Proof.
  unfold Json.encode_string.
  intros [_ [H _]%encodable_app]%encodable_app. by apply escaped_encodable_inv.
Qed.

Lemma join_encodable_inv (sep : str) (parts : list str) :
  encodable (join sep parts) → Forall encodable parts.
Proof.
  induction parts as [|p parts IH]; [constructor|].
  destruct parts as [|p' parts]; [by repeat constructor|].
  change (encodable (p ++ sep ++ join sep (p' :: parts))
          → Forall encodable (p :: p' :: parts)).
  intros [Hp [_ Hrest]%encodable_app]%encodable_app.
  constructor; [exact Hp | by apply IH].
Qed.

(** The canonical text encodes only if every key and value does. *)
Lemma dumps_encodable_inv (d : dict str) :
  encodable (Json.dumps d) → Forall (λ kv, encodable kv.1 ∧ encodable kv.2) d.
Proof.
  unfold Json.dumps.
  intros [_ [H _]%encodable_app]%encodable_app.
  apply join_encodable_inv in H.
  eapply Permutation_Forall; [apply sorted_items_perm|].
  pose proof (proj1 (List.Forall_map Json.encode_item encodable _) H) as H'.
  eapply Forall_impl; [exact H'|].
  intros kv. unfold Json.encode_item.
  intros [Hk [_ Hv]%encodable_app]%encodable_app.
  split; by apply encode_string_encodable_inv.
Qed.

(** X18 (lines 20 to 31, 57 to 69 and 89).  A request is sent exactly when
    both variables are set and both values encode in UTF-8, that is,
    hold no lone surrogate (which [os.environ] gives for a byte of the
    environment that is not UTF-8).  In every other run the transport is
    not reached. *)
Theorem request_sent_iff (w : world) :
  requests (run w) ≠ [] ↔
  ∃ s u,
    environ w !! SECRET_NAME = Some s ∧ environ w !! RUN_URL_NAME = Some u
    ∧ encodable s ∧ encodable u.
Proof.
  split.
  - intros Hne. destruct (requests (run w)) as [|r rs] eqn:Hr; [done|].
    assert (Hin : r ∈ requests (run w)) by (rewrite Hr; apply list_elem_of_here).
    apply sent_inv in Hin as (s & u & key & body & Hs & Hu & Hk & Hb & _).
    exists s, u. split; [exact Hs|]. split; [exact Hu|]. split; [by exists key|].
    assert (Hd : encodable (Json.dumps (payload (timestamp (now w)) u)))
      by (by exists body).
    apply dumps_encodable_inv in Hd. unfold payload in Hd.
    do 5 apply Forall_cons in Hd as [_ Hd].
    apply Forall_cons in Hd as [[_ Hd] _]. exact Hd.
  - intros (s & u & Hs & Hu & Hes & Heu).
    destruct (reaches_transport w s u Hs Hu Hes Heu) as (key & body & _ & _ & ->).
    done.
Qed.

(** ** The limits of the interpreter (lines 101 to 105, and 111) *)

(** X19 (lines 101 to 105).  Line 103 catches [JSONDecodeError] only.
    When [json.loads] meets a limit of the interpreter on the text of a
    2xx body ([RecursionError] on containers nested too deep,
    [ValueError] on an integer with too many digits), the exception
    escapes: the run ends with the traceback as its only output, the
    line [Invalid JSON response:] is not printed, and the status is 1. *)
Theorem limit_errors_uncaught (w : world) (r : Request) (body : bytes) (text : str)
    (e : Json.error) :
  answered w r (Response body) → Utf8.decode body = Some text →
  Json.decode (json_limits w) text = inl e → e ≠ Json.Syntax →
  trace (run w) = [Clock; Sent r; Traceback (exn_of e)]
  ∧ (exn_of e = RecursionError ∨ exn_of e = ValueError)
  ∧ stdout (run w) = []
  ∧ stderr (run w) = [Traceback (exn_of e)]
  ∧ (∀ t, invalid_json_line t ∉ trace (run w))
  ∧ exit_status (run w) = 1.
Proof.
  intros [Hr Hu] Hd Hl He.
  rewrite (run_prepared w r (sent_prepared w r Hr)), Hu, Hd, Hl.
  destruct e; [done| |];
    (split; [reflexivity|]; split; [auto|]; split; [reflexivity|];
     split; [reflexivity|]; split; [|reflexivity];
     intros t Ht; trace_members Ht).
Qed.

Lemma limit_errors_uncaught_witness :
  (answered (responding deep_body) sample_request (Response deep_body)
   ∧ Utf8.decode deep_body = Some deep_body
   ∧ Json.decode cpython_limits deep_body = inl Json.TooDeep)
  ∧ trace (run (responding deep_body))
    = [Clock; Sent sample_request; Traceback RecursionError]
  ∧ exit_status (run (responding deep_body)) = 1.
Proof.
  pose proof (sample_answered (Response deep_body)) as H.
  assert (Hd : Utf8.decode deep_body = Some deep_body) by (vm_compute; reflexivity).
  assert (Hl : Json.decode cpython_limits deep_body = inl Json.TooDeep)
    by (vm_compute; reflexivity).
  assert (He : Json.TooDeep ≠ Json.Syntax) by discriminate.
  split; [split; [exact H | split; [exact Hd | exact Hl]]|].
  destruct (limit_errors_uncaught (responding deep_body) _ _ _ _ H Hd Hl He)
    as (Ht & _ & _ & _ & _ & Hs).
  split; [exact Ht | exact Hs].
Defined.

(** An integer of 4301 digits, under the limits of CPython. *)
Example long_integer_raises :
  Json.decode cpython_limits long_body = inl Json.TooLong
  ∧ trace (run (responding long_body))
    = [Clock; Sent sample_request; Traceback ValueError].
Proof.
  assert (Hd : Utf8.decode long_body = Some long_body) by (vm_compute; reflexivity).
  assert (Hl : Json.decode cpython_limits long_body = inl Json.TooLong)
    by (vm_compute; reflexivity).
  split; [exact Hl|].
  destruct (sample_answered (Response long_body)) as [Hr Hu].
  unfold responding.
  rewrite (run_prepared _ _ (sent_prepared _ _ Hr)), Hu, Hd.
  change (json_limits (mocked sample_environ (Response long_body)))
    with cpython_limits.
  by rewrite Hl.
Qed.

(** What a strict stream writes: the texts that encode. *)
Lemma writable_strict (s : str) :
  writable Strict (Value (Json.VStr s)) = true ↔ encodable s.
Proof.
  cbn [writable]. induction s as [|c s IH]; [by split; [eexists|]|].
  rewrite encodable_cons. cbn [forallb accepts].
  rewrite andb_true_iff, bool_decide_eq_true, IH. done.
Qed.

(** X20 (lines 110 and 111).  A response that passes the test of line
    110 is not yet a success: when its receipt is a [str] with a lone
    surrogate (JSON allows the escape of one) and stdout is strict,
    [print] raises [UnicodeEncodeError] after it has written
    [Submission receipt:]; the run ends with a traceback and status 1,
    not on the success path. *)
Theorem unwritable_receipt_raises (w : world) (d : dict Json.value) (s : str) :
  parsed_response w (Json.VDict d) → accepted (Json.VDict d) →
  dict_get (lit "receipt") d = Some (Json.VStr s) →
  stdout_errors w = Strict → ¬ encodable s →
  stdout (run w) = [cut_receipt_line]
  ∧ stderr (run w) = [Traceback UnicodeEncodeError]
  ∧ exit_status (run w) = 1
  ∧ ¬ success_path (run w).
Proof.
  intros [r Hrun]%run_parsed Ha%accepted_test Hs Hh Hn.
  assert (Hv : dict_get_default (lit "receipt") d = Json.VStr s)
    by (unfold dict_get_default; by rewrite Hs).
  rewrite Hrun, Ha, Hv, Hh.
  destruct (writable Strict (Value (Json.VStr s))) eqn:Hw.
  - by apply writable_strict in Hw.
  - split; [reflexivity|]. split; [reflexivity|]. split; [reflexivity|].
    by intros (? & ? & ?).
Qed.

Lemma unwritable_receipt_raises_witness :
  (parsed_response (responding surrogate_body) (Json.VDict surrogate_parsed)
   ∧ accepted (Json.VDict surrogate_parsed)
   ∧ ¬ encodable [0xD800])
  ∧ stdout (run (responding surrogate_body)) = [cut_receipt_line]
  ∧ stderr (run (responding surrogate_body)) = [Traceback UnicodeEncodeError]
  ∧ exit_status (run (responding surrogate_body)) = 1.
Proof.
  assert (Hp : parsed_response (responding surrogate_body)
                 (Json.VDict surrogate_parsed)).
  { apply (sample_parsed_response _ surrogate_body); vm_compute; reflexivity. }
  assert (Ha : accepted (Json.VDict surrogate_parsed)).
  { apply accepted_test. vm_compute. reflexivity. }
  assert (Hs : dict_get (lit "receipt") surrogate_parsed = Some (Json.VStr [0xD800]))
    by (vm_compute; reflexivity).
  assert (Hn : ¬ encodable [0xD800]).
  { intros [b Hb]. vm_compute in Hb. discriminate Hb. }
  split; [split; [exact Hp | split; [exact Ha | exact Hn]]|].
  destruct (unwritable_receipt_raises (responding surrogate_body) _ _ Hp Ha Hs
              eq_refl Hn) as (Hout & Herr & Hst & _).
  split; [exact Hout|]. split; [exact Herr | exact Hst].
Defined.

(** ** The canonical text and the limits *)

Lemma decode_plain_tokens (lim : Json.limits) (toks : list Json.token)
    (v : Json.value) :
  Forall (λ t, plain_token t = true) toks →
  ∀ m stack,
    Json.parse m stack toks = Some v →
    Json.decode_tokens lim m stack toks Json.Finished = inr v.
Proof.
  induction 1 as [|t toks Ht _ IH]; intros m stack;
    cbn [Json.parse Json.decode_tokens].
  - destruct m; try done. by intros [= ->].
  - assert (Hl : Json.limit_at lim m stack t = None).
    { unfold Json.limit_at. destruct (Json.starts_value m t); [|done].
      by destruct t as [| | | | | |[]]. }
    rewrite Hl. destruct (Json.parse_step m stack t) as [[m' stack']|]; [|done].
    cbn [mbind option_bind]. apply IH.
Qed.

Lemma items_tokens_plain (items : list (str * str)) :
  Forall (λ t, plain_token t = true) (items_tokens items).
Proof.
  induction items as [|kv items IH]; [constructor|].
  destruct items as [|kv' items]; [by repeat constructor|].
  change (items_tokens (kv :: kv' :: items))
    with (item_tokens kv ++ [Json.TComma] ++ items_tokens (kv' :: items)).
  apply Forall_app; split; [by repeat constructor|].
  apply Forall_app; split; [by repeat constructor | exact IH].
Qed.

(** X21 (lines 57 to 62).  The canonical text meets no limit: it is one
    object of strings, so it nests no container and holds no integer.
    Under every setting of the interpreter [json.loads] returns the
    object, without [RecursionError] or [ValueError]. *)
Theorem decode_dumps (lim : Json.limits) (d : dict str) :
  NoDup d.*1 →
  Json.decode lim (Json.dumps d)
  = inr (Json.VDict (map string_value (Json.sorted_items d))).
Proof.
  intros Hnd. pose proof (loads_dumps_items d Hnd) as Hl.
  unfold Json.loads in Hl. rewrite lex_dumps in Hl.
  cbn [mbind option_bind app Json.parse Json.parse_step Json.parse_value_start]
    in Hl.
  unfold Json.decode. rewrite (lex_scan _ _ _ (lex_dumps d)).
  cbn [app Json.decode_tokens Json.limit_at Json.starts_value Json.depth
       Json.parse_step Json.parse_value_start Nat.leb].
  apply decode_plain_tokens; [|exact Hl].
  apply Forall_app; split; [apply items_tokens_plain | by repeat constructor].
Qed.

Lemma decode_dumps_witness :
  NoDup (payload (timestamp sample_now) (lit "u")).*1
  ∧ Json.decode cpython_limits
      (canonical_json (payload (timestamp sample_now) (lit "u")))
    = inr (Json.VDict
             (map string_value
                (Json.sorted_items (payload (timestamp sample_now) (lit "u"))))).
Proof.
  pose proof (payload_keys_distinct (timestamp sample_now) (lit "u")) as Hnd.
  split; [exact Hnd|].
  exact (decode_dumps cpython_limits _ Hnd).
Defined.
